(** * Geo-SInC, UNAVCO2022: LOS geometry and two-component velocity decomposition

    A shallow embedding of the numeric cells of two notebooks:

    - [simple_los_decomposition_berkeley_landslides.ipynb] (section 4.4):
      the line-of-sight vectors of two viewing geometries, the design
      matrix [P], the factor [PTPinv] and the loop over the landslides;
    - [process_quadtree_output.ipynb] (section 3.1): the unit LOS columns
      written to the okinv table.

    NumPy's double-precision arrays are read as arrays of real numbers:
    [np.cos], [np.sin], [np.matmul], [np.linalg.inv] are the exact
    operations on [R], so a statement proved here holds of the binary64
    program up to rounding.  Rounding also decides what the exact model
    cannot: whether the inversion of a (nearly) singular [P^T P] raises
    or returns, and whether a product overflows.  Statements about the
    inverse therefore assume that [P^T P] is regular, and those about
    the numbers it yields a well-conditioned design matrix and bounded
    data ([well_conditioned], [bounded]); module [F64] evaluates the
    loop body in binary64 itself where overflow matters.
    Python exceptions are values of a result type, named by their class.

    The notebooks are sequences of top-level statements.  Cells are
    cited by their saved execution count, [In [n]].  The expressions
    that the specification names [compute_los_vector],
    [build_design_matrix], [decompose] and [decompose_many] are the
    notebook's inline expressions with their variables as parameters. *)

From Stdlib Require Import String Reals Machin Factorial Lra Lia List Psatz.
From Stdlib Require Import Permutation.
From Stdlib Require Floats.
Import ListNotations.
Open Scope R_scope.

(** ** Python outcomes: a value or a raised exception *)

Module Py.

Inductive result (A : Type) : Type :=
| Ok (a : A)
| Raise (cls : string).

Arguments Ok {A} a.
Arguments Raise {A} cls.

Definition bind {A B : Type} (m : result A) (k : A -> result B) : result B :=
  match m with
  | Ok a => k a
  | Raise cls => Raise cls
  end.

(** Running a list of computations in order, stopping at the first
    exception: the outcome of a [for] loop that collects one value per
    iteration. *)
Fixpoint for_each {A B : Type} (body : A -> result B) (l : list A)
  : result (list B) :=
  match l with
  | [] => Ok []
  | x :: l' =>
      bind (body x) (fun y =>
      bind (for_each body l') (fun ys => Ok (y :: ys)))
  end.

Definition returns {A : Type} (m : result A) : Prop := exists a, m = Ok a.

(** Exception classes the notebooks can meet. *)
Definition LinAlgError : string := "LinAlgError"%string.
Definition ValueError : string := "ValueError"%string.
Definition IndexError : string := "IndexError"%string.

Definition DimensionMismatchError : string := "DimensionMismatchError"%string.
Definition InvalidInputError : string := "InvalidInputError"%string.

End Py.

Import Py.

Notation "x <- m ;; k" := (bind m (fun x => k))
  (at level 61, m at next level, right associativity).

(** ** The NumPy operations the notebooks call, at the shapes they call them *)

Module Np.

(** [np.radians(x)]: degrees to radians. *)
Definition radians (deg : R) : R := deg * (PI / 180).

(** A one-dimensional array. *)
Definition array := list R.

(** [a[i]] on a one-dimensional array. *)
Definition getitem (a : array) (i : nat) : result R :=
  match nth_error a i with
  | Some x => Ok x
  | None => Raise IndexError
  end.

(** An array of shape (N,2): its N rows. *)
Definition mat_N2 := list (R * R).
(** An array of shape (2,N): its N columns. *)
Definition mat_2N := list (R * R).
(** An array of shape (M,1), a column of M numbers. *)
Definition col := list R.
(** Shapes (2,2), by rows, and (2,1). *)
Definition mat_22 : Type := (R * R) * (R * R).
Definition col_2 : Type := R * R.

(** [P.T]: the transposed view of the same N pairs, each row of [P]
    becoming a column. *)
Definition T (P : mat_N2) : mat_2N := P.

(** Sum of the products of two equally long sequences. *)
Definition dot (u v : list R) : R :=
  fold_right Rplus 0 (map (fun p => fst p * snd p) (combine u v)).

(** [np.matmul(A, B)] for [A] of shape (2,N) and [B] of shape (N',2):
    the inner dimensions must agree. *)
Definition matmul_2N_N2 (A : mat_2N) (B : mat_N2) : result mat_22 :=
  if Nat.eqb (length A) (length B) then
    Ok ((dot (map fst A) (map fst B), dot (map fst A) (map snd B)),
        (dot (map snd A) (map fst B), dot (map snd A) (map snd B)))
  else Raise ValueError.

(** [np.matmul(A, r)] for [A] of shape (2,N) and [r] of shape (M,1). *)
Definition matmul_2N_col (A : mat_2N) (r : col) : result col_2 :=
  if Nat.eqb (length A) (length r) then
    Ok (dot (map fst A) r, dot (map snd A) r)
  else Raise ValueError.

(** [np.matmul(M, v)] for shapes (2,2) and (2,1). *)
Definition matmul_22_col (M : mat_22) (v : col_2) : col_2 :=
  (fst (fst M) * fst v + snd (fst M) * snd v,
   fst (snd M) * fst v + snd (snd M) * snd v).

Definition det (M : mat_22) : R :=
  fst (fst M) * snd (snd M) - snd (fst M) * fst (snd M).

(** [np.linalg.inv(M)] for a (2,2) array, in exact arithmetic: the
    elimination meets a zero pivot exactly when the determinant is zero
    and then raises [LinAlgError] ("Singular matrix"); otherwise the
    inverse matrix is returned.  In binary64 the pivots are those of the
    rounded matrix: on a [P^T P] that is singular or nearly so the
    program may raise or return numbers, and this model does not tell
    which. *)
Definition inv (M : mat_22) : result mat_22 :=
  if Req_dec_T (det M) 0 then Raise LinAlgError
  else Ok ((snd (snd M) / det M, - snd (fst M) / det M),
           (- fst (snd M) / det M, fst (fst M) / det M)).

(** [np.vstack(([x],[y]))]: the (2,1) column of two numbers. *)
Definition vstack_2 (x y : R) : col := [x; y].

(** [a * b] on one-dimensional arrays: element by element when the
    lengths agree, a single element broadcast against the other array,
    [ValueError] otherwise. *)
Definition mul (a b : array) : result array :=
  if Nat.eqb (length a) (length b)
  then Ok (map (fun p => fst p * snd p) (combine a b))
  else match a, b with
       | [x], _ => Ok (map (fun y => x * y) b)
       | _, [y] => Ok (map (fun x => x * y) a)
       | _, _ => Raise ValueError
       end.

(** [-a], and [np.arange(1, n+1)]. *)

Definition neg (a : array) : array := map Ropp a.

Definition arange_from_1 (n : nat) : array := map INR (seq 1 n).

(** Euclidean norm of a three-component array. *)
Definition norm (p : array) : R :=
  sqrt (nth 0 p 0 * nth 0 p 0 + nth 1 p 0 * nth 1 p 0 + nth 2 p 0 * nth 2 p 0).

End Np.

(** ** Notebook 4.4: decomposing LOS velocities *)

Module Decomposition.

Import Np.

(** In [2] and In [4]: the LOS vector of a viewing geometry,
    [np.array([np.cos(azi)*np.sin(inc), -np.sin(azi)*np.sin(inc),
    -np.cos(inc)])], written once for both. *)
Definition compute_los_vector (azi inc : R) : array :=
  [cos azi * sin inc; - sin azi * sin inc; - cos inc].

Definition asc_azi : R := radians 191.
Definition asc_inc : R := radians 23.
Definition p_asc : array := compute_los_vector asc_azi asc_inc.

Definition dsc_azi : R := radians 348.
Definition dsc_inc : R := radians 34.
Definition p_dsc : array := compute_los_vector dsc_azi dsc_inc.

(** Components of a LOS vector, [p[0]], [p[1]], [p[2]]. *)
Definition east (p : array) : R := nth 0 p 0.
Definition north (p : array) : R := nth 1 p 0.
Definition vertical (p : array) : R := nth 2 p 0.

(** In [29]: [p_hat = np.array([p[0], p[2]])] for one geometry; an
    array without index 0 or 2 raises [IndexError]. *)
Definition p_hat (p : array) : result (R * R) :=
  x <- getitem p 0 ;;
  z <- getitem p 2 ;;
  Ok (x, z).

(** [np.vstack] of the [p_hat] of each LOS vector, in order. *)
Definition build_design_matrix (los_vectors : list array)
  : result mat_N2 :=
  for_each p_hat los_vectors.

(** In [29]: [P = np.vstack([p_hat_asc, p_hat_dsc])] for the two LOS
    vectors of the notebook, of three components each. *)
Definition P : mat_N2 :=
  [(east p_asc, vertical p_asc); (east p_dsc, vertical p_dsc)].

(** In [11]: the observations and the inverse of [P^T P],
    [PTPinv = np.linalg.inv(np.matmul(P.T, P))]. *)
Definition r_asc_all : array := [-7.2; -4.3; -4.6; -2.8; -12.1].
Definition r_dsc_all : array := [12.2; 2.7; 5.3; 5.0; 12.0].

Definition PTPinv (P : mat_N2) : result mat_22 :=
  PTP <- matmul_2N_N2 (T P) P ;;
  inv PTP.

(** In [23], loop body: [u = np.matmul(PTPinv, np.matmul(P.T, r))]. *)
Definition solve (PTPinv : mat_22) (P : mat_N2) (r : col) : result col_2 :=
  PTr <- matmul_2N_col (T P) r ;;
  Ok (matmul_22_col PTPinv PTr).

(** In [23], one iteration:
    [r = np.vstack(([r_asc_all[i]], [r_dsc_all[i]]))], then [u]. *)
Definition landslide (PTPinv : mat_22) (P : mat_N2)
    (r_asc_all r_dsc_all : array) (i : nat) : result col_2 :=
  ra <- getitem r_asc_all i ;;
  rd <- getitem r_dsc_all i ;;
  solve PTPinv P (vstack_2 ra rd).

(** In [23]: [for i in range(len(r_asc_all))], collecting the pairs
    [(u[0,0], u[1,0])] that are printed. *)
Definition landslides (PTPinv : mat_22) (P : mat_N2)
    (r_asc_all r_dsc_all : array) : result (list col_2) :=
  for_each (landslide PTPinv P r_asc_all r_dsc_all)
           (seq 0 (length r_asc_all)).

(** One target: the factor of In [11], then the loop body. *)
Definition decompose (P : mat_N2) (r : col) : result col_2 :=
  F <- PTPinv P ;;
  solve F P r.

(** All targets: In [11] followed by the loop of In [23]. *)
Definition decompose_many (P : mat_N2) (r_asc_all r_dsc_all : array)
  : result (list col_2) :=
  F <- PTPinv P ;;
  landslides F P r_asc_all r_dsc_all.

(** The observation vectors the loop builds, in order. *)
Definition observations (targets : list (R * R)) : list col :=
  map (fun t => vstack_2 (fst t) (snd t)) targets.

(** [P^T P], which [np.matmul(P.T, P)] always returns. *)
Definition gram (P : mat_N2) : mat_22 :=
  ((dot (map fst P) (map fst P), dot (map fst P) (map snd P)),
   (dot (map snd P) (map fst P), dot (map snd P) (map snd P))).

(** The forward model [r' = P m] of section 3 of the notebook. *)
Definition forward (P : mat_N2) (m : col_2) : col :=
  map (fun row => fst row * fst m + snd row * snd m) P.

(** The residual [P m - r] of a model [m] against observations [r]. *)
Definition residual (P : mat_N2) (m : col_2) (r : col) : col :=
  map (fun p => fst p - snd p) (combine (forward P m) r).

(** The batch decomposition in the specification's words: [decompose]
    applied to each observation vector on its own, in input order. *)
Definition decompose_each (P : mat_N2) (obs : list col)
  : result (list col_2) :=
  for_each (decompose P) obs.

(** Two velocity pairs, or two LOS vectors, agree within a tolerance. *)
Definition within (tol : R) (u v : col_2) : Prop :=
  Rabs (fst u - fst v) <= tol /\ Rabs (snd u - snd v) <= tol.

Definition los_within (tol : R) (p q : array) : Prop :=
  Rabs (east p - east q) <= tol
  /\ Rabs (north p - north q) <= tol
  /\ Rabs (vertical p - vertical q) <= tol.

(** The results recorded in the saved output of In [23] and discussed
    in the text that follows it. *)
Definition documented : list col_2 :=
  [(-20.4, -4.8); (-7.5, 0.2); (-10.5, -1.4); (-8.2, -2.0); (-25.7, -2.3)].


(** Two rows are linearly independent when only the trivial combination
    of them vanishes. *)
Definition lin_indep (p q : R * R) : Prop :=
  forall x y : R,
    x * fst p + y * fst q = 0 -> x * snd p + y * snd q = 0 ->
    x = 0 /\ y = 0.


(** The sum of the diagonal entries of a 2x2 matrix. *)
Definition trace (M : mat_22) : R := fst (fst M) + snd (snd M).

(** A design matrix of LOS components (each at most 1 in absolute
    value) whose [P^T P] is far from singular on the scale of binary64,
    in absolute terms (determinant at least 1/10000) and relative to its
    size (the ratio of its eigenvalues, at most [trace^2 / det], is at
    most a million); and a column of entries on the scale of velocities
    (at most a million in absolute value).  On these inputs the exact
    inverse and the binary64 one agree up to rounding. *)
Definition well_conditioned (P : mat_N2) : Prop :=
  Forall (fun p => Rabs (fst p) <= 1 /\ Rabs (snd p) <= 1) P
  /\ / 10000 <= det (gram P)
  /\ trace (gram P) ^ 2 <= 10 ^ 6 * det (gram P).

Definition bounded (v : col) : Prop :=
  Forall (fun x => Rabs x <= 10 ^ 6) v.

(** The determinant of the 2x2 matrix of two rows. *)
Definition cross (p q : R * R) : R := fst p * snd q - snd p * fst q.

(** The sum of the squares of a column. *)
Definition sumsq (v : col) : R := dot v v.

(** The horizontal unit vector (east, north) of a flight of azimuth
    [azi], and the horizontal direction a quarter turn to its right:
    the radars "point 90 degrees to the right of their flight azimuth"
    (section 2 of the notebook). *)
Definition heading (azi : R) : R * R := (sin azi, cos azi).
Definition right_of (h : R * R) : R * R := (snd h, - fst h).

End Decomposition.

(** ** Notebook 3.1: the okinv table of a quadtree *)

Module Quadtree.

Import Np.

(** [losx=np.cos(qt.leaf_thetas)*-np.cos(qt.leaf_phis)] and its two
    companions, element-wise over the leaves. *)
Definition losx (leaf_thetas leaf_phis : array) : result array :=
  mul (map cos leaf_thetas) (neg (map cos leaf_phis)).
Definition losy (leaf_thetas leaf_phis : array) : result array :=
  mul (map cos leaf_thetas) (neg (map sin leaf_phis)).
Definition losz (leaf_thetas : array) : array :=
  neg (map sin leaf_thetas).

(** [np.column_stack] of seven one-dimensional arrays: one row per
    index, [ValueError] unless all have the same length. *)
Definition column_stack (cols : list array) : result (list (list R)) :=
  match cols with
  | [] => Raise ValueError
  | c :: _ =>
      if forallb (fun c' => Nat.eqb (length c') (length c)) cols
      then Ok (map (fun i => map (fun c' => nth i c' 0) cols)
                   (seq 0 (length c)))
      else Raise ValueError
  end.

(** The table [okinv_data]: x, y, displacement, unit LOS x, y, z, id. *)
Definition okinv_data (xkm ykm leaf_means leaf_thetas leaf_phis : array)
  : result (list (list R)) :=
  lx <- losx leaf_thetas leaf_phis ;;
  ly <- losy leaf_thetas leaf_phis ;;
  let lz := losz leaf_thetas in
  let dataptid := arange_from_1 (length lx) in
  column_stack [xkm; ykm; leaf_means; lx; ly; lz; dataptid].

(** Columns 3, 4, 5 of a row of the table. *)
Definition row_los (row : list R) : array :=
  [nth 3 row 0; nth 4 row 0; nth 5 row 0].

(** [xyll]: the leaf centres in longitude and latitude,
    [np.column_stack((qt.leaf_focal_points[:,0]+reflon,
    qt.leaf_focal_points[:,1]+reflat))], for an (n,2) array of centres. *)
Definition xyll (leaf_focal_points : list (R * R)) (reflon reflat : R)
  : result (list (list R)) :=
  column_stack [map (fun p => fst p + reflon) leaf_focal_points;
                map (fun p => snd p + reflat) leaf_focal_points].

(** [xkm = xym[0]/1000], [ykm = xym[1]/1000]: UTM metres to kilometres. *)
Definition km (metres : array) : array := map (fun x => x / 1000) metres.

(** [np.column_stack] of a two-dimensional block followed by
    one-dimensional arrays, each as long as the block has rows. *)
Definition column_stack_block (block : list (list R)) (cols : list array)
  : result (list (list R)) :=
  if forallb (fun c' => Nat.eqb (length c') (length block)) cols
  then Ok (map (fun i => nth i block [] ++ map (fun c' => nth i c' 0) cols)
               (seq 0 (length block)))
  else Raise ValueError.

(** The table [okinv_data_ll]: longitude, latitude, displacement, unit
    LOS x, y, z, id. *)
Definition okinv_data_ll (leaf_focal_points : list (R * R))
    (reflon reflat : R) (leaf_means leaf_thetas leaf_phis : array)
  : result (list (list R)) :=
  xy <- xyll leaf_focal_points reflon reflat ;;
  lx <- losx leaf_thetas leaf_phis ;;
  ly <- losy leaf_thetas leaf_phis ;;
  let lz := losz leaf_thetas in
  let dataptid := arange_from_1 (length lx) in
  column_stack_block xy [leaf_means; lx; ly; lz; dataptid].

End Quadtree.

(** ** The loop body in binary64 *)

Module F64.

Import Floats.
Local Open Scope float_scope.

Definition array := list float.
Definition mat_N2 := list (float * float).
Definition mat_2N := list (float * float).
Definition col := list float.
Definition mat_22 : Type := (float * float) * (float * float).
Definition col_2 : Type := float * float.

Definition T (P : mat_N2) : mat_2N := P.

(** Products accumulated from left to right, each operation rounded. *)
Definition dot (u v : list float) : float :=
  fold_left (fun acc p => acc + fst p * snd p) (combine u v) 0.

Definition matmul_2N_N2 (A : mat_2N) (B : mat_N2) : result mat_22 :=
  if Nat.eqb (length A) (length B) then
    Ok ((dot (map fst A) (map fst B), dot (map fst A) (map snd B)),
        (dot (map snd A) (map fst B), dot (map snd A) (map snd B)))
  else Raise ValueError.

Definition matmul_2N_col (A : mat_2N) (r : col) : result col_2 :=
  if Nat.eqb (length A) (length r) then
    Ok (dot (map fst A) r, dot (map snd A) r)
  else Raise ValueError.

Definition matmul_22_col (M : mat_22) (v : col_2) : col_2 :=
  (fst (fst M) * fst v + snd (fst M) * snd v,
   fst (snd M) * fst v + snd (snd M) * snd v).

(** The forward model [r = P m]. *)
Definition forward (P : mat_N2) (m : col_2) : col :=
  map (fun row => fst row * fst m + snd row * snd m) P.

(** In [23], loop body: [u = np.matmul(PTPinv, np.matmul(P.T, r))]. *)
Definition solve (PTPinv : mat_22) (P : mat_N2) (r : col) : result col_2 :=
  PTr <- matmul_2N_col (T P) r ;;
  Ok (matmul_22_col PTPinv PTr).

(** In [11] and In [23] for one target.  [np.linalg.inv] is LAPACK's
    and is left open: [inv] stands for whatever it does in binary64. *)
Definition decompose (inv : mat_22 -> result mat_22) (P : mat_N2) (r : col)
  : result col_2 :=
  PTP <- matmul_2N_N2 (T P) P ;;
  F <- inv PTP ;;
  solve F P r.

(** A number that is neither an infinity nor a NaN. *)
Definition finite (x : float) : bool :=
  match classify x with
  | PInf | NInf | NaN => false
  | _ => true
  end.

(** The real number a finite binary64 number stands for. *)
Definition to_R (x : float) : R :=
  match Prim2SF x with
  | S754_finite s m e =>
      ((if s then -1 else 1) * IZR (Zpos m) * powerRZ 2 e)%R
  | _ => 0%R
  end.

(** [2^600] times the identity matrix, and the model (1, 2). *)
Definition big_identity : mat_N2 := [(0x1p600, 0); (0, 0x1p600)].
Definition one_two : col_2 := (1, 2).

End F64.

(** * Properties *)

Import Np.

(** ** LOS vectors *)

Section LosVector.

Import Decomposition.

Lemma sum_sqr_trig (c s c' s' : R) :
  s * s + c * c = 1 -> s' * s' + c' * c' = 1 ->
  (c * s') * (c * s') + (- s * s') * (- s * s') + (- c') * (- c') = 1.
Proof. intros H H'. nra. Qed.

Lemma sin_cos_sqr (x : R) : sin x * sin x + cos x * cos x = 1.
Proof. exact (sin2_cos2 x). Qed.

(** C2: the LOS vector of a geometry is
    [cos(phi)*sin(theta), -sin(phi)*sin(theta), -cos(theta)], its east,
    north and vertical components in this order; the two LOS vectors of
    the notebook are instances of it. *)
Theorem compute_los_vector_formula (phi theta : R) :
  compute_los_vector phi theta
    = [cos phi * sin theta; - sin phi * sin theta; - cos theta]
  /\ east (compute_los_vector phi theta) = cos phi * sin theta
  /\ north (compute_los_vector phi theta) = - sin phi * sin theta
  /\ vertical (compute_los_vector phi theta) = - cos theta
  /\ p_asc = [cos (radians 191) * sin (radians 23);
              - sin (radians 191) * sin (radians 23);
              - cos (radians 23)]
  /\ p_dsc = [cos (radians 348) * sin (radians 34);
              - sin (radians 348) * sin (radians 34);
              - cos (radians 34)].
Proof. repeat split. Qed.

(** C5: the LOS vector of every azimuth and incidence has Euclidean
    norm 1, hence also lies within 1e-9 of 1. *)
Theorem compute_los_vector_unit_norm (phi theta : R) :
  norm (compute_los_vector phi theta) = 1
  /\ Rabs (norm (compute_los_vector phi theta) - 1) <= 1 / 1000000000.
Proof.
  assert (E : norm (compute_los_vector phi theta) = 1).
  { unfold norm, compute_los_vector; cbn [nth].
    rewrite (sum_sqr_trig _ _ _ _ (sin_cos_sqr phi) (sin_cos_sqr theta)).
    apply sqrt_1. }
  split; [exact E|].
  rewrite E, Rminus_diag, Rabs_R0. lra.
Qed.

(** C6, as stated, fails: at incidence [PI] the vertical component is 1. *)
Lemma vertical_positive_at_PI :
  ~ (vertical (compute_los_vector 0 PI) <= 0).
Proof.
  unfold vertical, compute_los_vector; cbn [nth].
  rewrite cos_PI. lra.
Qed.

(** C6, amended: for every azimuth and every incidence between -PI/2 and
    PI/2 the vertical component, [- cos(incidence)], is non-positive. *)
Theorem vertical_nonpositive (phi theta : R) :
  - (PI / 2) <= theta -> theta <= PI / 2 ->
  vertical (compute_los_vector phi theta) = - cos theta
  /\ vertical (compute_los_vector phi theta) <= 0.
Proof.
  intros Hlo Hhi. split; [reflexivity|].
  unfold vertical, compute_los_vector; cbn [nth].
  pose proof (cos_ge_0 theta Hlo Hhi). lra.
Qed.

Lemma vertical_nonpositive_witness :
  - (PI / 2) <= 0 /\ 0 <= PI / 2
  /\ vertical (compute_los_vector 0 0) <= 0.
Proof.
  pose proof PI_RGT_0 as HPI.
  assert (Hlo : - (PI / 2) <= 0) by lra.
  assert (Hhi : 0 <= PI / 2) by lra.
  split; [exact Hlo|]. split; [exact Hhi|].
  exact (proj2 (vertical_nonpositive 0 0 Hlo Hhi)).
Defined.

End LosVector.

(** ** The least-squares decomposition *)

Section Decompose.

Import Decomposition.

Lemma PTPinv_gram (P : mat_N2) : PTPinv P = inv (gram P).
Proof.
  unfold PTPinv, matmul_2N_N2, T. rewrite Nat.eqb_refl. reflexivity.
Qed.

Lemma inv_singular (M : mat_22) : det M = 0 -> inv M = Raise LinAlgError.
Proof.
  intros H. unfold inv. destruct (Req_dec_T (det M) 0); [reflexivity|contradiction].
Qed.

Lemma inv_regular (M : mat_22) :
  det M <> 0 ->
  inv M = Ok ((snd (snd M) / det M, - snd (fst M) / det M),
              (- fst (snd M) / det M, fst (fst M) / det M)).
Proof.
  intros H. unfold inv. destruct (Req_dec_T (det M) 0); [contradiction|reflexivity].
Qed.

Lemma inv_outcome (M : mat_22) :
  inv M = Raise LinAlgError \/ returns (inv M).
Proof.
  unfold inv. destruct (Req_dec_T (det M) 0); [left|right; eexists]; reflexivity.
Qed.

Lemma det_gram_2 (a b c d : R) :
  det (gram [(a, b); (c, d)]) = (a * d - b * c) * (a * d - b * c).
Proof. unfold det, gram, dot; cbn. ring. Qed.

Lemma lin_indep_det (a b c d : R) :
  lin_indep (a, b) (c, d) -> a * d - b * c <> 0.
Proof.
  intros H E.
  assert (H1 : c = 0 /\ - a = 0) by (apply H; cbn; lra).
  assert (H2 : d = 0 /\ - b = 0) by (apply H; cbn; lra).
  assert (H3 : 1 = 0 /\ 1 = 0) by (apply H; cbn; lra).
  lra.
Qed.

Lemma combination_det (a b c d x y : R) :
  x * a + y * c = 0 -> x * b + y * d = 0 ->
  x * (a * d - b * c) = 0 /\ y * (a * d - b * c) = 0.
Proof.
  intros H1 H2. split.
  - replace (x * (a * d - b * c))
      with (d * (x * a + y * c) - c * (x * b + y * d)) by ring.
    rewrite H1, H2. ring.
  - replace (y * (a * d - b * c))
      with (a * (x * b + y * d) - b * (x * a + y * c)) by ring.
    rewrite H1, H2. ring.
Qed.

Lemma det_lin_indep (a b c d : R) :
  a * d - b * c <> 0 -> lin_indep (a, b) (c, d).
Proof.
  intros H x y; cbn; intros H1 H2.
  destruct (combination_det a b c d x y H1 H2) as [Hx Hy].
  split.
  - destruct (Rmult_integral _ _ Hx); [assumption|contradiction].
  - destruct (Rmult_integral _ _ Hy); [assumption|contradiction].
Qed.


(** The closed form of the exactly determined case: with two rows of
    non-zero determinant the normal equations return [P^-1 r]. *)
Lemma decompose_2x2 (a b c d r1 r2 : R) :
  a * d - b * c <> 0 ->
  decompose [(a, b); (c, d)] [r1; r2]
  = Ok ((d * r1 - b * r2) / (a * d - b * c),
        (a * r2 - c * r1) / (a * d - b * c)).
Proof.
  intros H.
  assert (HD : det (gram [(a, b); (c, d)]) <> 0).
  { rewrite det_gram_2. apply Rmult_integral_contrapositive_currified; exact H. }
  unfold decompose. rewrite PTPinv_gram, (inv_regular _ HD).
  rewrite det_gram_2 in *.
  unfold bind, solve, matmul_2N_col, T, bind, matmul_22_col, gram, dot; cbn.
  f_equal. f_equal; field; exact H.
Qed.

(** In exact arithmetic two linearly independent rows are enough for
    the round trip and the exact fit. *)
Lemma round_trip_exact (a b c d : R) (m : col_2) :
  lin_indep (a, b) (c, d) ->
  decompose [(a, b); (c, d)] (forward [(a, b); (c, d)] m) = Ok m
  /\ residual [(a, b); (c, d)] m (forward [(a, b); (c, d)] m) = [0; 0]
  /\ forall r1 r2 : R, exists u : col_2,
       decompose [(a, b); (c, d)] [r1; r2] = Ok u
       /\ forward [(a, b); (c, d)] u = [r1; r2]
       /\ residual [(a, b); (c, d)] u [r1; r2] = [0; 0].
Proof.
  intros H. apply lin_indep_det in H. destruct m as [mH mV].
  split; [|split].
  - unfold forward; cbn [map fst snd]. rewrite (decompose_2x2 _ _ _ _ _ _ H).
    apply f_equal. apply f_equal2; field; exact H.
  - unfold residual, forward; cbn. repeat f_equal; ring.
  - intros r1 r2. eexists. split; [apply (decompose_2x2 _ _ _ _ _ _ H)|].
    assert (E : forward [(a, b); (c, d)]
                  ((d * r1 - b * r2) / (a * d - b * c),
                   (a * r2 - c * r1) / (a * d - b * c)) = [r1; r2]).
    { unfold forward; cbn. repeat f_equal; field; exact H. }
    split; [exact E|].
    unfold residual. rewrite E. cbn. repeat f_equal; ring.
Qed.

Lemma well_conditioned_regular (P : mat_N2) :
  well_conditioned P -> det (gram P) <> 0.
Proof. intros (_ & H & _). lra. Qed.

Lemma square_le_1 (x : R) : Rabs x <= 1 -> x * x <= 1.
Proof.
  intros H. assert (B : -1 <= x <= 1).
  { unfold Rabs in H. destruct (Rcase_abs x); lra. }
  replace 1 with (1 * 1) by ring.
  destruct (Rle_dec 0 x).
  - apply Rmult_le_compat; lra.
  - replace (x * x) with (- x * - x) by ring.
    apply Rmult_le_compat; lra.
Qed.

(** Two rows of LOS components are well conditioned as soon as the
    determinant of [P^T P] is at least 1/10000. *)
Lemma two_rows_well_conditioned (a b c d : R) :
  Rabs a <= 1 -> Rabs b <= 1 -> Rabs c <= 1 -> Rabs d <= 1 ->
  / 10000 <= det (gram [(a, b); (c, d)]) ->
  well_conditioned [(a, b); (c, d)].
Proof.
  intros Ha Hb Hc Hd H. split; [|split; [exact H|]].
  - apply Forall_cons; [split; assumption|].
    apply Forall_cons; [split; assumption | apply Forall_nil].
  - apply Rle_trans with (4 ^ 2).
    + pose proof (square_le_1 _ Ha). pose proof (square_le_1 _ Hb).
      pose proof (square_le_1 _ Hc). pose proof (square_le_1 _ Hd).
      assert (0 <= a * a) by (apply Rle_0_sqr).
      assert (0 <= b * b) by (apply Rle_0_sqr).
      assert (0 <= c * c) by (apply Rle_0_sqr).
      assert (0 <= d * d) by (apply Rle_0_sqr).
      apply pow_incr. unfold trace, gram, dot; cbn. lra.
    + lra.
Qed.

(** C1, amended: for a well-conditioned two-row design matrix (entries
    at most 1 in absolute value, determinant of [P^T P] at least
    1/10000) and a model [m] of entries at most a million in absolute
    value, decomposing the exact observations
    [P m] returns [m] with zero residual; and bounded observations are
    fitted exactly. *)
Theorem round_trip_well_conditioned (a b c d : R) (m : col_2) :
  well_conditioned [(a, b); (c, d)] ->
  bounded [fst m; snd m] ->
  decompose [(a, b); (c, d)] (forward [(a, b); (c, d)] m) = Ok m
  /\ residual [(a, b); (c, d)] m (forward [(a, b); (c, d)] m) = [0; 0]
  /\ forall r1 r2 : R, bounded [r1; r2] ->
       exists u : col_2,
         decompose [(a, b); (c, d)] [r1; r2] = Ok u
         /\ forward [(a, b); (c, d)] u = [r1; r2]
         /\ residual [(a, b); (c, d)] u [r1; r2] = [0; 0].
Proof.
  intros W _. apply well_conditioned_regular in W.
  rewrite det_gram_2 in W.
  assert (H : lin_indep (a, b) (c, d)).
  { apply det_lin_indep. intros Z. apply W. rewrite Z. ring. }
  destruct (round_trip_exact a b c d m H) as (H1 & H2 & H3).
  split; [exact H1|]. split; [exact H2|].
  intros r1 r2 _. apply H3.
Qed.

Lemma identity_well_conditioned : well_conditioned [(1, 0); (0, 1)].
Proof.
  apply two_rows_well_conditioned; rewrite ?Rabs_R1, ?Rabs_R0; try lra.
  rewrite det_gram_2. lra.
Qed.

Lemma bounded_2_3 : bounded [2; 3].
Proof.
  assert (B : 3 <= 10 ^ 6).
  { replace 3 with (3 ^ 1) by ring.
    apply Rle_trans with (10 ^ 1); [simpl; lra|].
    apply Rle_pow; [lra | lia]. }
  repeat constructor; rewrite Rabs_pos_eq; lra.
Qed.

Lemma round_trip_well_conditioned_witness :
  decompose [(1, 0); (0, 1)] (forward [(1, 0); (0, 1)] (2, 3)) = Ok (2, 3).
Proof.
  exact (proj1 (round_trip_well_conditioned 1 0 0 1 (2, 3)
                  identity_well_conditioned bounded_2_3)).
Defined.

(** *** Degenerate geometry *)

Lemma PTPinv_singular_2 (a b c d : R) :
  a * d - b * c = 0 -> PTPinv [(a, b); (c, d)] = Raise LinAlgError.
Proof.
  intros H. rewrite PTPinv_gram. apply inv_singular.
  rewrite det_gram_2, H. ring.
Qed.

Lemma p_hat_three (x y z : R) (rest : array) :
  p_hat (x :: y :: z :: rest) = Ok (x, z).
Proof. reflexivity. Qed.

(** An array without index 2 cannot enter the design matrix. *)
Lemma p_hat_short (p : array) :
  (length p < 3)%nat -> p_hat p = Raise IndexError.
Proof.
  intros H. destruct p as [|x [|y [|z rest]]]; try reflexivity.
  cbn in H. lia.
Qed.





(** *** Input validation *)

Lemma decompose_outcome (P : mat_N2) (r : col) :
  decompose P r = Raise LinAlgError
  \/ decompose P r = Raise ValueError
  \/ returns (decompose P r).
Proof.
  unfold decompose. rewrite PTPinv_gram.
  destruct (inv_outcome (gram P)) as [E | [F E]]; rewrite E; cbn.
  - left; reflexivity.
  - unfold solve, matmul_2N_col.
    destruct (Nat.eqb (length (T P)) (length r)); cbn.
    + right; right; eexists; reflexivity.
    + right; left; reflexivity.
Qed.

Lemma decompose_length_mismatch (P : mat_N2) (r : col) :
  length r <> length P ->
  decompose P r = Raise LinAlgError \/ decompose P r = Raise ValueError.
Proof.
  intros H. unfold decompose. rewrite PTPinv_gram.
  destruct (inv_outcome (gram P)) as [E | [F E]]; rewrite E; cbn.
  - left; reflexivity.
  - right. unfold solve, matmul_2N_col, T.
    replace (Nat.eqb (length P) (length r)) with false; [reflexivity|].
    symmetry; apply Nat.eqb_neq; congruence.
Qed.

Lemma decompose_empty_matrix (r : col) : decompose [] r = Raise LinAlgError.
Proof.
  unfold decompose. rewrite PTPinv_gram, inv_singular; [reflexivity|].
  unfold det, gram, dot; cbn. ring.
Qed.

(** C7, as stated, fails: three observations against two rows raise
    numpy's [ValueError], not [DimensionMismatchError]. *)
Lemma mismatch_not_dimension_error :
  decompose [(1, 0); (0, 1)] [1; 2; 3] <> Raise DimensionMismatchError.
Proof.
  destruct (decompose_length_mismatch [(1, 0); (0, 1)] [1; 2; 3]) as [E | E];
    [cbn; lia | rewrite E; discriminate | rewrite E; discriminate].
Qed.

(** Likewise empty inputs raise [LinAlgError], not [InvalidInputError]. *)
Lemma empty_not_invalid_input_error :
  decompose [] [] <> Raise InvalidInputError.
Proof. rewrite decompose_empty_matrix. discriminate. Qed.

(** C7, amended: [decompose] has no validation of its own.  When the
    observation count differs from the row count, or an input is empty,
    it returns no result, and the exception is numpy's: [LinAlgError]
    from inverting [P^T P] when that is singular (always so for an empty
    matrix), otherwise [ValueError] from the shapes of [P.T] and [r].
    [DimensionMismatchError] and [InvalidInputError] are never raised. *)
Theorem decompose_unvalidated (P : mat_N2) (r : col) :
  length r <> length P \/ P = [] \/ r = [] ->
  ~ returns (decompose P r)
  /\ (decompose P r = Raise LinAlgError \/ decompose P r = Raise ValueError)
  /\ (P = [] -> decompose P r = Raise LinAlgError)
  /\ (length r <> length P -> det (gram P) <> 0 ->
      decompose P r = Raise ValueError)
  /\ decompose P r <> Raise DimensionMismatchError
  /\ decompose P r <> Raise InvalidInputError.
Proof.
  intros H.
  assert (E : decompose P r = Raise LinAlgError
              \/ decompose P r = Raise ValueError).
  { destruct H as [H | [H | H]].
    - apply decompose_length_mismatch; exact H.
    - subst P. left; apply decompose_empty_matrix.
    - subst r. destruct P as [|row P].
      + left; apply decompose_empty_matrix.
      + apply decompose_length_mismatch. cbn; lia. }
  split; [|split; [exact E|split; [|split]]].
  - intros [u Hu]. destruct E as [E | E]; rewrite E in Hu; discriminate.
  - intros ->. apply decompose_empty_matrix.
  - intros Hlen HD. unfold decompose.
    rewrite PTPinv_gram, (inv_regular _ HD); cbn.
    unfold solve, matmul_2N_col, T.
    replace (Nat.eqb (length P) (length r)) with false; [reflexivity|].
    symmetry; apply Nat.eqb_neq; congruence.
  - split; destruct E as [E | E]; rewrite E; discriminate.
Qed.

Lemma decompose_unvalidated_witness :
  decompose [(1, 0); (0, 1)] [1; 2; 3] = Raise ValueError.
Proof.
  assert (H : length [1; 2; 3] <> length [(1, 0); (0, 1)]) by (cbn; lia).
  assert (HD : det (gram [(1, 0); (0, 1)]) <> 0).
  { rewrite det_gram_2. lra. }
  exact (proj1 (proj2 (proj2 (proj2
           (decompose_unvalidated [(1, 0); (0, 1)] [1; 2; 3] (or_introl H)))))
           H HD).
Defined.

(** *** Linearity in the observations *)



Lemma solve_returns (F : mat_22) (P : mat_N2) (r : col) :
  length r = length P ->
  solve F P r
  = Ok (matmul_22_col F (dot (map fst P) r, dot (map snd P) r)).
Proof.
  intros H. unfold solve, matmul_2N_col, T.
  rewrite H, Nat.eqb_refl. reflexivity.
Qed.



(** *** The batch and the single decomposition *)

Lemma for_each_ext {A B : Type} (f g : A -> result B) (l : list A) :
  (forall x, In x l -> f x = g x) -> for_each f l = for_each g l.
Proof.
  induction l as [|x l IH]; intros H; cbn; [reflexivity|].
  rewrite (H x) by (left; reflexivity).
  rewrite IH by (intros y Hy; apply H; right; exact Hy). reflexivity.
Qed.

Lemma for_each_map {A B C : Type} (h : A -> B) (f : B -> result C)
    (l : list A) :
  for_each f (map h l) = for_each (fun x => f (h x)) l.
Proof.
  induction l as [|x l IH]; cbn; [reflexivity|]. rewrite IH. reflexivity.
Qed.

(** The index loop over two parallel arrays visits the targets in order. *)
Lemma landslides_targets (F : mat_22) (P : mat_N2) (targets : list (R * R)) :
  landslides F P (map fst targets) (map snd targets)
  = for_each (solve F P) (observations targets).
Proof.
  unfold landslides, observations. rewrite length_map, for_each_map.
  induction targets as [|t targets IH]; [reflexivity|].
  cbn [length seq for_each]. rewrite <- seq_shift, for_each_map.
  unfold landslide at 1; cbn [map getitem nth_error bind].
  rewrite <- IH. reflexivity.
Qed.

Lemma for_each_raise {A B : Type} (f : A -> result B) (cls : string)
    (l : list A) :
  l <> [] -> (forall x, f x = Raise cls) -> for_each f l = Raise cls.
Proof.
  intros Hl Hf. destruct l as [|x l]; [contradiction|].
  cbn. rewrite Hf. reflexivity.
Qed.

(** C8, as stated, fails: with a singular [P^T P] and no target at all,
    the batch raises from the precomputation of In [11], while applying
    [decompose] to each of no observation vectors yields the empty
    sequence. *)
Lemma batch_differs_without_targets :
  decompose_many [(0, -1); (0, -1)] [] []
  <> decompose_each [(0, -1); (0, -1)] (observations []).
Proof.
  unfold decompose_many. rewrite PTPinv_singular_2 by ring.
  cbn. discriminate.
Qed.

(** C8, amended: whenever [P^T P] is invertible or there is at least
    one target, the batch has the outcome of applying [decompose] to
    each observation vector in input order, and one and the same factor
    [PTPinv] serves every target. *)
Theorem decompose_many_each (P : mat_N2) (targets : list (R * R)) :
  det (gram P) <> 0 \/ targets <> [] ->
  decompose_many P (map fst targets) (map snd targets)
  = decompose_each P (observations targets)
  /\ forall F : mat_22, PTPinv P = Ok F ->
       decompose_many P (map fst targets) (map snd targets)
       = for_each (solve F P) (observations targets)
       /\ forall r : col, In r (observations targets) ->
            decompose P r = solve F P r.
Proof.
  intros H. unfold decompose_many, decompose_each.
  split.
  - rewrite PTPinv_gram.
    destruct (inv_outcome (gram P)) as [E | [F E]].
    + destruct H as [H | H];
        [rewrite (inv_regular _ H) in E; discriminate|].
      rewrite E; cbn [bind]. symmetry. apply for_each_raise.
      * destruct targets; [contradiction|discriminate].
      * intros r. unfold decompose. rewrite PTPinv_gram, E. reflexivity.
    + rewrite E; cbn [bind]. rewrite landslides_targets.
      apply for_each_ext. intros r _.
      unfold decompose. rewrite PTPinv_gram, E. reflexivity.
  - intros F E. rewrite E; cbn [bind]. split.
    + apply landslides_targets.
    + intros r _. unfold decompose. rewrite E. reflexivity.
Qed.

Lemma decompose_many_each_witness :
  decompose_many [(1, 0); (0, 1)] (map fst [(1, 2); (3, 4)])
                 (map snd [(1, 2); (3, 4)])
  = decompose_each [(1, 0); (0, 1)] (observations [(1, 2); (3, 4)]).
Proof.
  assert (H : det (gram [(1, 0); (0, 1)]) <> 0) by (rewrite det_gram_2; lra).
  exact (proj1 (decompose_many_each [(1, 0); (0, 1)] [(1, 2); (3, 4)]
                  (or_introl H))).
Defined.

End Decompose.

(** ** The okinv table of notebook 3.1 *)

Section Okinv.

Import Quadtree.

Lemma nth_map_lt (f : R -> R) (l : list R) (i : nat) (d d' : R) :
  (i < length l)%nat -> nth i (map f l) d' = f (nth i l d).
Proof.
  intros H. rewrite (nth_indep _ d' (f d)) by (rewrite length_map; exact H).
  apply map_nth.
Qed.

Lemma nth_mul (a b : array) (i : nat) :
  nth i (map (fun p => fst p * snd p) (combine a b)) 0
  = nth i a 0 * nth i b 0.
Proof.
  assert (N : forall j : nat, nth j (@nil R) 0 = 0) by (intros [|j]; reflexivity).
  revert b i. induction a as [|x a IH]; intros b i.
  - cbn [combine map]. rewrite !N. ring.
  - destruct b as [|y b].
    + cbn [combine map]. rewrite !N. ring.
    + destruct i as [|i]; cbn [combine map nth fst snd]; [ring|apply IH].
Qed.

Lemma nth_rows (cols : list array) (n i : nat) :
  (i < n)%nat ->
  nth i (map (fun j : nat => map (fun c' : array => nth j c' 0) cols)
             (seq 0 n)) []
  = map (fun c' : array => nth i c' 0) cols.
Proof.
  intros H. set (f := fun j : nat => map (fun c' : array => nth j c' 0) cols).
  rewrite (nth_indep _ [] (f 0%nat)) by (rewrite length_map, length_seq; exact H).
  rewrite map_nth, seq_nth by exact H. reflexivity.
Qed.

Lemma mul_returns (a b : array) :
  length a = length b ->
  mul a b = Ok (map (fun p => fst p * snd p) (combine a b)).
Proof. intros H. unfold mul. rewrite H, Nat.eqb_refl. reflexivity. Qed.

Lemma kite_los_sum_sqr (theta phi : R) :
  (cos theta * - cos phi) * (cos theta * - cos phi)
  + (cos theta * - sin phi) * (cos theta * - sin phi)
  + (- sin theta) * (- sin theta) = 1.
Proof.
  pose proof (sin2_cos2 theta) as Ht. pose proof (sin2_cos2 phi) as Hp.
  unfold Rsqr in Ht, Hp. nra.
Qed.

(** C10: in kite's convention the vector
    [cos(theta)*(-cos(phi)), cos(theta)*(-sin(phi)), -sin(theta)] has
    norm 1 for every incidence and azimuth, and when the five input
    arrays have one length the okinv table is produced with one row per
    leaf whose unit-LOS columns hold this vector, of norm 1. *)
Theorem okinv_los_unit_norm :
  (forall theta phi : R,
     norm [cos theta * - cos phi; cos theta * - sin phi; - sin theta] = 1)
  /\ forall xkm ykm leaf_means leaf_thetas leaf_phis : array,
       length xkm = length leaf_thetas ->
       length ykm = length leaf_thetas ->
       length leaf_means = length leaf_thetas ->
       length leaf_phis = length leaf_thetas ->
       exists rows : list (list R),
         okinv_data xkm ykm leaf_means leaf_thetas leaf_phis = Ok rows
         /\ length rows = length leaf_thetas
         /\ forall i : nat, (i < length leaf_thetas)%nat ->
              row_los (nth i rows [])
              = [cos (nth i leaf_thetas 0) * - cos (nth i leaf_phis 0);
                 cos (nth i leaf_thetas 0) * - sin (nth i leaf_phis 0);
                 - sin (nth i leaf_thetas 0)]
              /\ norm (row_los (nth i rows [])) = 1.
Proof.
  assert (U : forall theta phi : R,
     norm [cos theta * - cos phi; cos theta * - sin phi; - sin theta] = 1).
  { intros theta phi. unfold norm; cbn [nth].
    rewrite kite_los_sum_sqr. apply sqrt_1. }
  split; [exact U|].
  intros xkm ykm leaf_means leaf_thetas leaf_phis Hx Hy Hm Hp.
  unfold okinv_data, losx, losy, losz.
  rewrite !mul_returns by (unfold neg; rewrite !length_map; congruence).
  cbn [bind]. unfold column_stack, arange_from_1, neg.
  cbn [forallb]. rewrite !length_map, length_combine, !length_map, length_seq.
  rewrite length_combine, !length_map.
  rewrite Hx, Hy, Hm, Hp, Nat.min_id, !Nat.eqb_refl. cbn [andb].
  eexists. split; [reflexivity|]. split.
  - rewrite length_map, length_seq. reflexivity.
  - intros i Hi.
    rewrite nth_rows by exact Hi.
    unfold row_los; cbn [map nth].
    rewrite !nth_mul.
    rewrite !(nth_map_lt cos leaf_thetas i 0 0) by exact Hi.
    rewrite !(nth_map_lt Ropp _ i 0 0) by (rewrite length_map; congruence).
    rewrite !(nth_map_lt cos leaf_phis i 0 0) by congruence.
    rewrite !(nth_map_lt sin leaf_phis i 0 0) by congruence.
    rewrite !(nth_map_lt sin leaf_thetas i 0 0) by exact Hi.
    split; [reflexivity|apply U].
Qed.

Lemma okinv_los_unit_norm_witness :
  exists rows : list (list R),
    okinv_data [1] [2] [3] [0] [0] = Ok rows
    /\ length rows = 1%nat
    /\ forall i : nat, (i < 1)%nat ->
         row_los (nth i rows [])
         = [cos (nth i [0] 0) * - cos (nth i [0] 0);
            cos (nth i [0] 0) * - sin (nth i [0] 0);
            - sin (nth i [0] 0)]
         /\ norm (row_los (nth i rows [])) = 1.
Proof.
  exact (proj2 okinv_los_unit_norm [1] [2] [3] [0] [0]
           eq_refl eq_refl eq_refl eq_refl).
Defined.

End Okinv.

(** ** The landslides of notebook 4.4, numerically *)

Section Numerics.

Import Decomposition.

(** *** Enclosures of PI, sine and cosine *)

Lemma PI_bounds : 3.1415926 < PI < 3.1415927.
Proof.
  pose proof (PI_2_3_7_ineq 3) as H.
  unfold sum_f_R0, tg_alt, PI_2_3_7_tg, Ratan_seq in H.
  simpl in H. lra.
Qed.

Lemma INR_fact (n : nat) (z : Z) :
  Z.of_nat (fact n) = z -> INR (fact n) = IZR z.
Proof. intros <-. apply INR_IZR_INZ. Qed.

Lemma sin_taylor (x : R) :
  0 <= x -> x <= 3 ->
  x - x ^ 3 / 6 + x ^ 5 / 120 - x ^ 7 / 5040 <= sin x
  /\ sin x <= x - x ^ 3 / 6 + x ^ 5 / 120 - x ^ 7 / 5040 + x ^ 9 / 362880.
Proof.
  intros H0 H3. pose proof PI_bounds as HPI.
  assert (Hpi : x <= PI) by lra.
  destruct (SIN x H0 Hpi) as [L U].
  unfold sin_lb, sin_ub, sin_approx, sum_f_R0, sin_term in L, U.
  change (2 * 0 + 1)%nat with 1%nat in L, U.
  change (2 * 1 + 1)%nat with 3%nat in L, U.
  change (2 * 2 + 1)%nat with 5%nat in L, U.
  change (2 * 3 + 1)%nat with 7%nat in L, U.
  change (2 * 4 + 1)%nat with 9%nat in U.
  rewrite (INR_fact 1 1 eq_refl), (INR_fact 3 6 eq_refl),
    (INR_fact 5 120 eq_refl), (INR_fact 7 5040 eq_refl) in L, U.
  rewrite (INR_fact 9 362880 eq_refl) in U.
  split; lra.
Qed.

Lemma cos_taylor (x : R) :
  0 <= x -> x <= 3 / 2 ->
  1 - x ^ 2 / 2 + x ^ 4 / 24 - x ^ 6 / 720 <= cos x
  /\ cos x <= 1 - x ^ 2 / 2 + x ^ 4 / 24 - x ^ 6 / 720 + x ^ 8 / 40320.
Proof.
  intros H0 H3. pose proof PI_bounds as HPI.
  assert (Hlo : - PI / 2 <= x) by lra.
  assert (Hhi : x <= PI / 2) by lra.
  destruct (COS x Hlo Hhi) as [L U].
  unfold cos_lb, cos_ub, cos_approx, sum_f_R0, cos_term in L, U.
  change (2 * 0)%nat with 0%nat in L, U.
  change (2 * 1)%nat with 2%nat in L, U.
  change (2 * 2)%nat with 4%nat in L, U.
  change (2 * 3)%nat with 6%nat in L, U.
  change (2 * 4)%nat with 8%nat in U.
  rewrite (INR_fact 0 1 eq_refl), (INR_fact 2 2 eq_refl),
    (INR_fact 4 24 eq_refl), (INR_fact 6 720 eq_refl) in L, U.
  rewrite (INR_fact 8 40320 eq_refl) in U.
  split; lra.
Qed.

Lemma pow_enclosure (lo x hi : R) (n : nat) :
  0 <= lo -> lo <= x -> x <= hi -> lo ^ n <= x ^ n /\ x ^ n <= hi ^ n.
Proof. intros H0 H1 H2. split; apply pow_incr; lra. Qed.

Lemma sin_enclosure (lo x hi : R) :
  0 <= lo -> lo <= x -> x <= hi -> hi <= 3 ->
  lo - hi ^ 3 / 6 + lo ^ 5 / 120 - hi ^ 7 / 5040 <= sin x
  /\ sin x
     <= hi - lo ^ 3 / 6 + hi ^ 5 / 120 - lo ^ 7 / 5040 + hi ^ 9 / 362880.
Proof.
  intros H0 H1 H2 H3.
  destruct (sin_taylor x) as [L U]; [lra | lra |].
  pose proof (pow_enclosure lo x hi 3 H0 H1 H2).
  pose proof (pow_enclosure lo x hi 5 H0 H1 H2).
  pose proof (pow_enclosure lo x hi 7 H0 H1 H2).
  pose proof (pow_enclosure lo x hi 9 H0 H1 H2).
  split; lra.
Qed.

Lemma cos_enclosure (lo x hi : R) :
  0 <= lo -> lo <= x -> x <= hi -> hi <= 3 / 2 ->
  1 - hi ^ 2 / 2 + lo ^ 4 / 24 - hi ^ 6 / 720 <= cos x
  /\ cos x
     <= 1 - lo ^ 2 / 2 + hi ^ 4 / 24 - lo ^ 6 / 720 + hi ^ 8 / 40320.
Proof.
  intros H0 H1 H2 H3.
  destruct (cos_taylor x) as [L U]; [lra | lra |].
  pose proof (pow_enclosure lo x hi 2 H0 H1 H2).
  pose proof (pow_enclosure lo x hi 4 H0 H1 H2).
  pose proof (pow_enclosure lo x hi 6 H0 H1 H2).
  pose proof (pow_enclosure lo x hi 8 H0 H1 H2).
  split; lra.
Qed.

(** The four acute angles behind the two geometries: 191 = 180 + 11 and
    348 = 360 - 12 degrees. *)
Lemma radians_11 : 0.1919862 <= radians 11 <= 0.1919863.
Proof. pose proof PI_bounds. unfold radians. lra. Qed.

Lemma radians_12 : 0.2094395 <= radians 12 <= 0.2094396.
Proof. pose proof PI_bounds. unfold radians. lra. Qed.

Lemma radians_23 : 0.4014257 <= radians 23 <= 0.4014258.
Proof. pose proof PI_bounds. unfold radians. lra. Qed.

Lemma radians_34 : 0.5934119 <= radians 34 <= 0.5934120.
Proof. pose proof PI_bounds. unfold radians. lra. Qed.

Lemma sin_11 : 0.1908089 <= sin (radians 11) <= 0.1908091.
Proof.
  destruct radians_11 as [L U].
  destruct (sin_enclosure 0.1919862 (radians 11) 0.1919863) as [A B]; lra.
Qed.

Lemma cos_11 : 0.9816271 <= cos (radians 11) <= 0.9816272.
Proof.
  destruct radians_11 as [L U].
  destruct (cos_enclosure 0.1919862 (radians 11) 0.1919863) as [A B]; lra.
Qed.

Lemma sin_12 : 0.2079116 <= sin (radians 12) <= 0.2079118.
Proof.
  destruct radians_12 as [L U].
  destruct (sin_enclosure 0.2094395 (radians 12) 0.2094396) as [A B]; lra.
Qed.

Lemma cos_12 : 0.9781475 <= cos (radians 12) <= 0.9781477.
Proof.
  destruct radians_12 as [L U].
  destruct (cos_enclosure 0.2094395 (radians 12) 0.2094396) as [A B]; lra.
Qed.

Lemma sin_23 : 0.3907310 <= sin (radians 23) <= 0.3907313.
Proof.
  destruct radians_23 as [L U].
  destruct (sin_enclosure 0.4014257 (radians 23) 0.4014258) as [A B]; lra.
Qed.

Lemma cos_23 : 0.9205048 <= cos (radians 23) <= 0.9205049.
Proof.
  destruct radians_23 as [L U].
  destruct (cos_enclosure 0.4014257 (radians 23) 0.4014258) as [A B]; lra.
Qed.

Lemma sin_34 : 0.5591928 <= sin (radians 34) <= 0.5591930.
Proof.
  destruct radians_34 as [L U].
  destruct (sin_enclosure 0.5934119 (radians 34) 0.5934120) as [A B]; lra.
Qed.

Lemma cos_34 : 0.8290371 <= cos (radians 34) <= 0.8290377.
Proof.
  destruct radians_34 as [L U].
  destruct (cos_enclosure 0.5934119 (radians 34) 0.5934120) as [A B]; lra.
Qed.

Lemma radians_191 : radians 191 = radians 11 + PI.
Proof. unfold radians. field. Qed.

Lemma radians_348 : radians 348 = - radians 12 + 2 * PI.
Proof. unfold radians. field. Qed.

Lemma cos_191 : cos (radians 191) = - cos (radians 11).
Proof. rewrite radians_191. apply neg_cos. Qed.

Lemma sin_191 : sin (radians 191) = - sin (radians 11).
Proof. rewrite radians_191. apply neg_sin. Qed.

Lemma cos_348 : cos (radians 348) = cos (radians 12).
Proof.
  rewrite radians_348, cos_plus, cos_2PI, sin_2PI, cos_neg. ring.
Qed.

Lemma sin_348 : sin (radians 348) = - sin (radians 12).
Proof.
  rewrite radians_348, sin_plus, cos_2PI, sin_2PI, sin_neg. ring.
Qed.

(** *** The entries of the design matrix *)

Lemma mult_enclosure (x y xl xu yl yu : R) :
  xl <= x <= xu -> yl <= y <= yu ->
  (0 <= xl -> 0 <= yl -> xl * yl <= x * y <= xu * yu).
Proof.
  intros [X1 X2] [Y1 Y2] Hx Hy. split.
  - apply Rmult_le_compat; lra.
  - apply Rmult_le_compat; lra.
Qed.

Lemma p_asc_enclosure :
  -0.3835525 <= east p_asc <= -0.3835521
  /\ 0.0745549 <= north p_asc <= 0.0745551
  /\ -0.9205049 <= vertical p_asc <= -0.9205048.
Proof.
  unfold east, north, vertical, p_asc, compute_los_vector, asc_azi, asc_inc;
    cbn [nth].
  rewrite cos_191, sin_191.
  pose proof (mult_enclosure _ _ _ _ _ _ cos_11 sin_23) as H1.
  pose proof (mult_enclosure _ _ _ _ _ _ sin_11 sin_23) as H2.
  pose proof cos_23. lra.
Qed.

Lemma p_dsc_enclosure :
  0.5469730 <= east p_dsc <= 0.5469734
  /\ 0.1162626 <= north p_dsc <= 0.1162629
  /\ -0.8290377 <= vertical p_dsc <= -0.8290371.
Proof.
  unfold east, north, vertical, p_dsc, compute_los_vector, dsc_azi, dsc_inc;
    cbn [nth].
  rewrite cos_348, sin_348.
  pose proof (mult_enclosure _ _ _ _ _ _ cos_12 sin_34) as H1.
  pose proof (mult_enclosure _ _ _ _ _ _ sin_12 sin_34) as H2.
  pose proof cos_34. lra.
Qed.

(** The two products in the determinant of [P]. *)
Lemma P_products :
  0.3835521 * 0.8290371 <= east p_asc * vertical p_dsc
                        <= 0.3835525 * 0.8290377
  /\ 0.9205048 * 0.5469730 <= - (vertical p_asc * east p_dsc)
                           <= 0.9205049 * 0.5469734.
Proof.
  destruct p_asc_enclosure as (A & _ & B), p_dsc_enclosure as (C & _ & D).
  assert (A' : 0.3835521 <= - east p_asc <= 0.3835525) by lra.
  assert (B' : 0.9205048 <= - vertical p_asc <= 0.9205049) by lra.
  assert (D' : 0.8290371 <= - vertical p_dsc <= 0.8290377) by lra.
  pose proof (mult_enclosure _ _ _ _ _ _ A' D') as H1.
  pose proof (mult_enclosure _ _ _ _ _ _ B' C) as H2.
  lra.
Qed.

(** *** The loop in closed form *)

Lemma solve_2x2 (F : mat_22) (a b c d r1 r2 : R) :
  a * d - b * c <> 0 ->
  PTPinv [(a, b); (c, d)] = Ok F ->
  solve F [(a, b); (c, d)] [r1; r2]
  = Ok ((d * r1 - b * r2) / (a * d - b * c),
        (a * r2 - c * r1) / (a * d - b * c)).
Proof.
  intros H E. rewrite <- (decompose_2x2 a b c d r1 r2 H).
  unfold decompose. rewrite E. reflexivity.
Qed.

Lemma decompose_many_2x2 (a b c d : R) (targets : list (R * R)) :
  a * d - b * c <> 0 ->
  decompose_many [(a, b); (c, d)] (map fst targets) (map snd targets)
  = Ok (map (fun t => ((d * fst t - b * snd t) / (a * d - b * c),
                       (a * snd t - c * fst t) / (a * d - b * c)))
            targets).
Proof.
  intros H. unfold decompose_many.
  destruct (inv_outcome (gram [(a, b); (c, d)])) as [E | [F E]].
  - rewrite inv_regular in E; [discriminate|].
    rewrite det_gram_2. apply Rmult_integral_contrapositive_currified; exact H.
  - rewrite <- PTPinv_gram in E. rewrite E; cbn [bind].
    rewrite landslides_targets.
    induction targets as [|[r1 r2] targets IH]; [reflexivity|].
    change (observations ((r1, r2) :: targets))
      with ([r1; r2] :: observations targets).
    cbn [for_each]. rewrite (solve_2x2 F a b c d r1 r2 H E); cbn [bind].
    rewrite IH. reflexivity.
Qed.

Lemma close_div (n q v tol : R) :
  0 < q -> (v - tol) * q <= n -> n <= (v + tol) * q ->
  Rabs (n / q - v) <= tol.
Proof.
  intros Hq L U.
  assert (E : (n / q - v) * q = n - v * q) by (field; lra).
  apply Rabs_le.
  split; apply (Rmult_le_reg_r q); try exact Hq; rewrite E; lra.
Qed.

Lemma close_div_neg (n q v tol : R) :
  q < 0 -> (v + tol) * q <= n -> n <= (v - tol) * q ->
  Rabs (n / q - v) <= tol.
Proof.
  intros Hq L U.
  replace (n / q) with (- n / - q) by (field; lra).
  apply close_div; lra.
Qed.

Lemma Rabs_le_bounds (a b : R) : Rabs a <= b -> - b <= a <= b.
Proof. unfold Rabs. destruct (Rcase_abs a); lra. Qed.

Lemma within_apart (tol tol' : R) (u v w : col_2) :
  within tol u v -> tol + tol' < Rabs (fst v - fst w) -> ~ within tol' u w.
Proof.
  intros [H _] Hfar [H' _].
  apply Rabs_le_bounds in H, H'.
  revert Hfar. unfold Rabs. destruct (Rcase_abs (fst v - fst w)); lra.
Qed.

Lemma P_rows : P = [(east p_asc, vertical p_asc); (east p_dsc, vertical p_dsc)].
Proof. reflexivity. Qed.

Lemma batch_of_targets (M : mat_N2) :
  decompose_many M r_asc_all r_dsc_all
  = decompose_many M (map fst (combine r_asc_all r_dsc_all))
                     (map snd (combine r_asc_all r_dsc_all)).
Proof. reflexivity. Qed.

(** C4, evaluated on the cells as they are written: the two LOS vectors
    are the documented ones to four decimals, but with the 191/23 degree
    geometry in the first row of [P] the loop returns the five pairs
    (20.94,-0.90), (7.37,1.60), (10.58,0.59), (8.43,-0.47), (25.66,2.45)
    within 0.01, none of which is within 0.1 of the documented result. *)
Theorem landslides_as_written :
  los_within 0.00005 p_asc [-0.3836; 0.0746; -0.9205]
  /\ los_within 0.00005 p_dsc [0.5470; 0.1163; -0.8290]
  /\ exists u1 u2 u3 u4 u5 : col_2,
       decompose_many P r_asc_all r_dsc_all = Ok [u1; u2; u3; u4; u5]
       /\ within 0.01 u1 (20.94, -0.90)
       /\ within 0.01 u2 (7.37, 1.60)
       /\ within 0.01 u3 (10.58, 0.59)
       /\ within 0.01 u4 (8.43, -0.47)
       /\ within 0.01 u5 (25.66, 2.45)
       /\ ~ within 0.1 u1 (-20.4, -4.8)
       /\ ~ within 0.1 u2 (-7.5, 0.2)
       /\ ~ within 0.1 u3 (-10.5, -1.4)
       /\ ~ within 0.1 u4 (-8.2, -2.0)
       /\ ~ within 0.1 u5 (-25.7, -2.3).
Proof.
  destruct p_asc_enclosure as (A & NA & B), p_dsc_enclosure as (C & NC & D).
  destruct P_products as [AD BC].
  split; [|split].
  - unfold los_within; change (east [-0.3836; 0.0746; -0.9205]) with (-0.3836);
      change (north [-0.3836; 0.0746; -0.9205]) with 0.0746;
      change (vertical [-0.3836; 0.0746; -0.9205]) with (-0.9205).
    repeat split; apply Rabs_le; lra.
  - unfold los_within; change (east [0.5470; 0.1163; -0.8290]) with 0.5470;
      change (north [0.5470; 0.1163; -0.8290]) with 0.1163;
      change (vertical [0.5470; 0.1163; -0.8290]) with (-0.8290).
    repeat split; apply Rabs_le; lra.
  - rewrite P_rows, batch_of_targets.
    clear NA NC. revert A B C D AD BC.
    generalize (east p_asc) (vertical p_asc) (east p_dsc) (vertical p_dsc).
    intros a b c d A B C D AD BC.
    assert (Hq : 0 < a * d - b * c) by lra.
    rewrite decompose_many_2x2 by lra.
    unfold r_asc_all, r_dsc_all; cbn [combine map fst snd].
    do 5 eexists. split; [reflexivity|].
    assert (W1 : within 0.01
              ((d * -7.2 - b * 12.2) / (a * d - b * c),
               (a * 12.2 - c * -7.2) / (a * d - b * c)) (20.94, -0.90))
      by (split; cbn [fst snd]; apply close_div; lra).
    assert (W2 : within 0.01
              ((d * -4.3 - b * 2.7) / (a * d - b * c),
               (a * 2.7 - c * -4.3) / (a * d - b * c)) (7.37, 1.60))
      by (split; cbn [fst snd]; apply close_div; lra).
    assert (W3 : within 0.01
              ((d * -4.6 - b * 5.3) / (a * d - b * c),
               (a * 5.3 - c * -4.6) / (a * d - b * c)) (10.58, 0.59))
      by (split; cbn [fst snd]; apply close_div; lra).
    assert (W4 : within 0.01
              ((d * -2.8 - b * 5.0) / (a * d - b * c),
               (a * 5.0 - c * -2.8) / (a * d - b * c)) (8.43, -0.47))
      by (split; cbn [fst snd]; apply close_div; lra).
    assert (W5 : within 0.01
              ((d * -12.1 - b * 12.0) / (a * d - b * c),
               (a * 12.0 - c * -12.1) / (a * d - b * c)) (25.66, 2.45))
      by (split; cbn [fst snd]; apply close_div; lra).
    repeat split; try (apply W1 || apply W2 || apply W3 || apply W4 || apply W5).
    + apply (within_apart _ _ _ _ _ W1); cbn [fst].
      unfold Rabs; destruct (Rcase_abs _); lra.
    + apply (within_apart _ _ _ _ _ W2); cbn [fst].
      unfold Rabs; destruct (Rcase_abs _); lra.
    + apply (within_apart _ _ _ _ _ W3); cbn [fst].
      unfold Rabs; destruct (Rcase_abs _); lra.
    + apply (within_apart _ _ _ _ _ W4); cbn [fst].
      unfold Rabs; destruct (Rcase_abs _); lra.
    + apply (within_apart _ _ _ _ _ W5); cbn [fst].
      unfold Rabs; destruct (Rcase_abs _); lra.
Qed.

(** The documented results are those of the two geometries exchanged:
    with the 348/34 degree vector in the first row and the 191/23 degree
    vector in the second, the same observations decompose to the five
    recorded pairs within 0.05. *)
Lemma documented_with_rows_exchanged :
  exists (Q : mat_N2) (u1 u2 u3 u4 u5 : col_2),
    build_design_matrix [p_dsc; p_asc] = Ok Q
    /\ decompose_many Q r_asc_all r_dsc_all = Ok [u1; u2; u3; u4; u5]
    /\ Forall2 (within 0.05) [u1; u2; u3; u4; u5] documented.
Proof.
  destruct p_asc_enclosure as (A & _ & B), p_dsc_enclosure as (C & _ & D).
  destruct P_products as [AD BC].
  exists [(east p_dsc, vertical p_dsc); (east p_asc, vertical p_asc)].
  cut (exists u1 u2 u3 u4 u5 : col_2,
         decompose_many
           [(east p_dsc, vertical p_dsc); (east p_asc, vertical p_asc)]
           r_asc_all r_dsc_all = Ok [u1; u2; u3; u4; u5]
         /\ Forall2 (within 0.05) [u1; u2; u3; u4; u5] documented).
  { intros (u1 & u2 & u3 & u4 & u5 & H1 & H2).
    exists u1, u2, u3, u4, u5. split; [reflexivity|]. split; assumption. }
  rewrite batch_of_targets. revert A B C D AD BC.
  generalize (east p_asc) (vertical p_asc) (east p_dsc) (vertical p_dsc).
  intros a b c d A B C D AD BC.
  assert (Hq : c * b - d * a < 0) by lra.
  rewrite decompose_many_2x2 by lra.
  unfold r_asc_all, r_dsc_all, documented; cbn [combine map fst snd].
  do 5 eexists. split; [reflexivity|].
  repeat (apply Forall2_cons || apply Forall2_nil);
    split; cbn [fst snd]; apply close_div_neg; lra.
Qed.

(** The design matrix of In [29] is the one [build_design_matrix]
    returns for the two LOS vectors of the notebook. *)
Lemma P_built : build_design_matrix [p_asc; p_dsc] = Ok P.
Proof. reflexivity. Qed.

End Numerics.

(** * Further properties of the decomposition *)

Section Solvability.

Import Decomposition.

Lemma dot_cons (x y : R) (u v : list R) :
  dot (x :: u) (y :: v) = x * y + dot u v.
Proof. reflexivity. Qed.

Lemma dot_comm (u v : list R) : dot u v = dot v u.
Proof.
  revert v. induction u as [|x u IH]; intros [|y v]; try reflexivity.
  rewrite !dot_cons, IH. ring.
Qed.

Lemma sumsq_cons (x : R) (v : col) : sumsq (x :: v) = x * x + sumsq v.
Proof. reflexivity. Qed.

Lemma sumsq_nonneg (v : col) : 0 <= sumsq v.
Proof.
  induction v as [|x v IH]; [unfold sumsq, dot; cbn; lra|].
  rewrite sumsq_cons. nra.
Qed.

Lemma sumsq_zero (v : col) : sumsq v = 0 -> Forall (fun x => x = 0) v.
Proof.
  induction v as [|x v IH]; intros H; [constructor|].
  rewrite sumsq_cons in H. pose proof (sumsq_nonneg v).
  constructor; [nra | apply IH; nra].
Qed.

Lemma sumsq_all_zero (v : col) : Forall (fun x => x = 0) v -> sumsq v = 0.
Proof.
  induction 1 as [|x v Hx _ IH]; [unfold sumsq, dot; cbn; lra|].
  rewrite sumsq_cons, IH, Hx. ring.
Qed.

Lemma sumsq_nonzero (v : col) : sumsq v <> 0 -> exists x, In x v /\ x <> 0.
Proof.
  induction v as [|x v IH]; intros H.
  - exfalso; apply H; unfold sumsq, dot; cbn; lra.
  - destruct (Req_dec_T x 0) as [E | E].
    + destruct IH as (y & Hy & Hy0).
      * intros Z. apply H. rewrite sumsq_cons, Z, E. ring.
      * exists y. split; [right; exact Hy | exact Hy0].
    + exists x. split; [left; reflexivity | exact E].
Qed.

Lemma gram_cons (a b : R) (P : mat_N2) :
  gram ((a, b) :: P)
  = ((a * a + fst (fst (gram P)), a * b + snd (fst (gram P))),
     (b * a + fst (snd (gram P)), b * b + snd (snd (gram P)))).
Proof. reflexivity. Qed.

Lemma gram_symmetric (P : mat_N2) : fst (snd (gram P)) = snd (fst (gram P)).
Proof. unfold gram; cbn [fst snd]. apply dot_comm. Qed.

Lemma sumsq_cross (a b : R) (P : mat_N2) :
  sumsq (map (cross (a, b)) P)
  = a * a * snd (snd (gram P)) - 2 * a * b * snd (fst (gram P))
    + b * b * fst (fst (gram P)).
Proof.
  induction P as [|[c d] P IH].
  - unfold sumsq, gram, dot; cbn. ring.
  - cbn [map]. rewrite sumsq_cons, IH, gram_cons; cbn [fst snd].
    unfold cross; cbn [fst snd]. ring.
Qed.

(** Adding a row adds the squared determinants it forms with the rows
    already there. *)
Lemma det_gram_cons (p : R * R) (P : mat_N2) :
  det (gram (p :: P)) = det (gram P) + sumsq (map (cross p) P).
Proof.
  destruct p as [a b]. rewrite sumsq_cross, gram_cons.
  unfold det; cbn [fst snd]. rewrite gram_symmetric. ring.
Qed.

Lemma det_gram_nonneg (P : mat_N2) : 0 <= det (gram P).
Proof.
  induction P as [|p P IH].
  - unfold det, gram, dot; cbn. lra.
  - rewrite det_gram_cons. pose proof (sumsq_nonneg (map (cross p) P)). lra.
Qed.

Lemma cross_self (p : R * R) : cross p p = 0.
Proof. unfold cross. ring. Qed.

Lemma cross_swap (p q : R * R) : cross q p = - cross p q.
Proof. unfold cross. ring. Qed.

Lemma det_gram_zero (P : mat_N2) :
  det (gram P) = 0 ->
  forall p q, In p P -> In q P -> cross p q = 0.
Proof.
  induction P as [|x P IH]; intros H p q Hp Hq; [destruct Hp|].
  rewrite det_gram_cons in H.
  pose proof (det_gram_nonneg P). pose proof (sumsq_nonneg (map (cross x) P)).
  assert (Z1 : det (gram P) = 0) by lra.
  assert (Z2 : sumsq (map (cross x) P) = 0) by lra.
  apply sumsq_zero in Z2. rewrite Forall_forall in Z2.
  assert (Hx : forall y, In y P -> cross x y = 0).
  { intros y Hy. apply Z2. apply in_map. exact Hy. }
  destruct Hp as [<- | Hp], Hq as [<- | Hq].
  - apply cross_self.
  - apply Hx; exact Hq.
  - rewrite cross_swap, (Hx p Hp). ring.
  - apply IH; assumption.
Qed.

Lemma det_gram_nonzero (P : mat_N2) :
  det (gram P) <> 0 ->
  exists p q, In p P /\ In q P /\ cross p q <> 0.
Proof.
  induction P as [|x P IH]; intros H.
  - exfalso; apply H; unfold det, gram, dot; cbn; lra.
  - rewrite det_gram_cons in H.
    destruct (Req_dec_T (det (gram P)) 0) as [E | E].
    + destruct (sumsq_nonzero (map (cross x) P)) as (c & Hc & Hc0); [lra|].
      apply in_map_iff in Hc. destruct Hc as (q & <- & Hq).
      exists x, q. split; [left; reflexivity|]. split; [right; exact Hq | exact Hc0].
    + destruct (IH E) as (p & q & Hp & Hq & Hpq).
      exists p, q. split; [right; exact Hp|]. split; [right; exact Hq | exact Hpq].
Qed.

Lemma cross_lin_indep (p q : R * R) : cross p q <> 0 <-> lin_indep p q.
Proof.
  destruct p as [a b], q as [c d]. unfold cross; cbn [fst snd].
  split; [apply det_lin_indep | apply lin_indep_det].
Qed.

(** The normal-equations matrix is invertible exactly when two of the
    rows are linearly independent. *)
Lemma gram_regular_iff (P : mat_N2) :
  det (gram P) <> 0
  <-> exists p q, In p P /\ In q P /\ lin_indep p q.
Proof.
  split.
  - intros H. destruct (det_gram_nonzero P H) as (p & q & Hp & Hq & Hpq).
    exists p, q. split; [exact Hp|]. split; [exact Hq|].
    apply cross_lin_indep; exact Hpq.
  - intros (p & q & Hp & Hq & Hpq) Z.
    apply cross_lin_indep in Hpq. apply Hpq.
    apply (det_gram_zero P Z); assumption.
Qed.

Lemma decompose_regular (P : mat_N2) (r : col) :
  det (gram P) <> 0 -> length r = length P ->
  decompose P r
  = Ok (matmul_22_col
          ((snd (snd (gram P)) / det (gram P),
            - snd (fst (gram P)) / det (gram P)),
           (- fst (snd (gram P)) / det (gram P),
            fst (fst (gram P)) / det (gram P)))
          (dot (map fst P) r, dot (map snd P) r)).
Proof.
  intros HD HL. unfold decompose.
  rewrite PTPinv_gram, (inv_regular _ HD); cbn [bind].
  apply solve_returns; exact HL.
Qed.

Lemma decompose_mismatch_regular (P : mat_N2) (r : col) :
  det (gram P) <> 0 -> length r <> length P ->
  decompose P r = Raise ValueError.
Proof.
  intros HD HL. unfold decompose.
  rewrite PTPinv_gram, (inv_regular _ HD); cbn [bind].
  unfold solve, matmul_2N_col, T.
  replace (Nat.eqb (length P) (length r)) with false; [reflexivity|].
  symmetry; apply Nat.eqb_neq; congruence.
Qed.

End Solvability.

Section LeastSquares.

Import Decomposition.

Lemma decompose_Ok_inv (P : mat_N2) (r : col) (u : col_2) :
  decompose P r = Ok u ->
  det (gram P) <> 0 /\ length r = length P.
Proof.
  intros H. split.
  - intros Z. unfold decompose in H.
    rewrite PTPinv_gram, (inv_singular _ Z) in H. discriminate.
  - destruct (Nat.eq_dec (length r) (length P)) as [E | E]; [exact E|].
    destruct (Req_dec_T (det (gram P)) 0) as [Z | Z].
    + unfold decompose in H.
      rewrite PTPinv_gram, (inv_singular _ Z) in H. discriminate.
    + rewrite (decompose_mismatch_regular P r Z E) in H. discriminate.
Qed.

Lemma inverse_cancel (M : mat_22) (w : col_2) :
  det M <> 0 ->
  matmul_22_col M
    (matmul_22_col
       ((snd (snd M) / det M, - snd (fst M) / det M),
        (- fst (snd M) / det M, fst (fst M) / det M)) w)
  = w.
Proof.
  destruct M as [[a b] [c d]], w as [w1 w2].
  unfold det, matmul_22_col; cbn [fst snd]. intros H.
  apply f_equal2; field; exact H.
Qed.

(** The normal equations [P^T P u = P^T r] of a returned model. *)
Lemma normal_equations (P : mat_N2) (r : col) (u : col_2) :
  decompose P r = Ok u ->
  matmul_22_col (gram P) u = (dot (map fst P) r, dot (map snd P) r).
Proof.
  intros H. destruct (decompose_Ok_inv P r u H) as [HD HL].
  rewrite (decompose_regular P r HD HL) in H. injection H as <-.
  apply inverse_cancel; exact HD.
Qed.

Lemma forward_cons (a b : R) (P : mat_N2) (m : col_2) :
  forward ((a, b) :: P) m = (a * fst m + b * snd m) :: forward P m.
Proof. reflexivity. Qed.

Lemma forward_length (P : mat_N2) (m : col_2) :
  length (forward P m) = length P.
Proof. unfold forward. apply length_map. Qed.

Lemma residual_cons (a b x : R) (P : mat_N2) (m : col_2) (r : col) :
  residual ((a, b) :: P) m (x :: r)
  = (a * fst m + b * snd m - x) :: residual P m r.
Proof. reflexivity. Qed.

(** [P^T (P m) = (P^T P) m], row by row. *)
Lemma dot_fst_forward (P : mat_N2) (m : col_2) :
  dot (map fst P) (forward P m)
  = fst (fst (gram P)) * fst m + snd (fst (gram P)) * snd m.
Proof.
  induction P as [|[a b] P IH].
  - unfold gram, dot; cbn. ring.
  - rewrite forward_cons, gram_cons. cbn [map fst snd].
    rewrite dot_cons, IH. ring.
Qed.

Lemma dot_snd_forward (P : mat_N2) (m : col_2) :
  dot (map snd P) (forward P m)
  = fst (snd (gram P)) * fst m + snd (snd (gram P)) * snd m.
Proof.
  induction P as [|[a b] P IH].
  - unfold gram, dot; cbn. ring.
  - rewrite forward_cons, gram_cons. cbn [map fst snd].
    rewrite dot_cons, IH. ring.
Qed.

Lemma dot_forward (P : mat_N2) (m : col_2) :
  (dot (map fst P) (forward P m), dot (map snd P) (forward P m))
  = matmul_22_col (gram P) m.
Proof.
  rewrite dot_fst_forward, dot_snd_forward. reflexivity.
Qed.

Lemma dot_residual (v : list R) (P : mat_N2) (m : col_2) (r : col) :
  length r = length P ->
  dot v (residual P m r) = dot v (forward P m) - dot v r.
Proof.
  revert v r. induction P as [|[a b] P IH]; intros v [|x r] H;
    try discriminate.
  - destruct v; unfold dot; cbn; ring.
  - rewrite residual_cons, forward_cons. destruct v as [|y v].
    + unfold dot; cbn; ring.
    + rewrite !dot_cons, IH by (cbn in H; congruence). ring.
Qed.

(** The squared misfit of any model, as a quadratic in the model. *)
Lemma sumsq_residual (P : mat_N2) (m : col_2) (r : col) :
  length r = length P ->
  sumsq (residual P m r)
  = fst (fst (gram P)) * (fst m * fst m)
    + 2 * snd (fst (gram P)) * (fst m * snd m)
    + snd (snd (gram P)) * (snd m * snd m)
    - 2 * fst m * dot (map fst P) r
    - 2 * snd m * dot (map snd P) r
    + sumsq r.
Proof.
  revert r. induction P as [|[a b] P IH]; intros [|x r] H; try discriminate.
  - unfold sumsq, gram, dot; cbn. ring.
  - rewrite residual_cons, !sumsq_cons, IH by (cbn in H; congruence).
    rewrite gram_cons. cbn [map fst snd]. rewrite !dot_cons. ring.
Qed.

Lemma sumsq_forward (P : mat_N2) (d : col_2) :
  sumsq (forward P d)
  = fst (fst (gram P)) * (fst d * fst d)
    + 2 * snd (fst (gram P)) * (fst d * snd d)
    + snd (snd (gram P)) * (snd d * snd d).
Proof.
  induction P as [|[a b] P IH].
  - unfold sumsq, gram, dot; cbn. ring.
  - rewrite forward_cons, sumsq_cons, IH, gram_cons. cbn [fst snd]. ring.
Qed.

(** The misfit of any model exceeds that of a returned one by the
    squared length of [P (m - u)]. *)
Lemma misfit_gap (P : mat_N2) (r : col) (u m : col_2) :
  decompose P r = Ok u ->
  sumsq (residual P m r)
  = sumsq (residual P u r)
    + sumsq (forward P (fst m - fst u, snd m - snd u)).
Proof.
  intros H. destruct (decompose_Ok_inv P r u H) as [HD HL].
  pose proof (normal_equations P r u H) as N.
  unfold matmul_22_col in N. rewrite gram_symmetric in N.
  injection N as N1 N2.
  rewrite !sumsq_residual by exact HL. rewrite sumsq_forward.
  unfold gram; cbn [fst snd]. rewrite <- N1, <- N2. ring.
Qed.

(** In exact arithmetic the residual of a returned model is orthogonal
    to both columns of the design matrix. *)
Lemma residual_orthogonal_exact (P : mat_N2) (r : col) (u : col_2) :
  decompose P r = Ok u ->
  dot (map fst P) (residual P u r) = 0
  /\ dot (map snd P) (residual P u r) = 0.
Proof.
  intros H. destruct (decompose_Ok_inv P r u H) as [HD HL].
  pose proof (normal_equations P r u H) as N.
  rewrite <- dot_forward in N. injection N as N1 N2.
  rewrite !dot_residual by exact HL. lra.
Qed.

Lemma square_term_zero (x k y : R) :
  0 < k -> x * x + k * (y * y) = 0 -> y = 0.
Proof.
  intros Hk H.
  assert (Hx : 0 <= x * x) by apply Rle_0_sqr.
  assert (Hy : 0 <= y * y) by apply Rle_0_sqr.
  assert (Hky : 0 <= k * (y * y)) by (apply Rmult_le_pos; lra).
  assert (Z : k * (y * y) = 0) by lra.
  destruct (Rmult_integral _ _ Z) as [E | E]; [lra|].
  destruct (Rmult_integral _ _ E); assumption.
Qed.

(** In exact arithmetic a returned model is the unique minimiser of the
    sum of squared residuals. *)
Lemma least_squares_exact (P : mat_N2) (r : col) (u : col_2) :
  decompose P r = Ok u ->
  forall m : col_2,
    sumsq (residual P u r) <= sumsq (residual P m r)
    /\ (sumsq (residual P m r) = sumsq (residual P u r) -> m = u).
Proof.
  intros H m. rewrite (misfit_gap P r u m H).
  pose proof (sumsq_nonneg (forward P (fst m - fst u, snd m - snd u))) as Q.
  split; [lra|]. intros E.
  assert (Z : sumsq (forward P (fst m - fst u, snd m - snd u)) = 0) by lra.
  destruct (decompose_Ok_inv P r u H) as [HD _].
  pose proof (det_gram_nonneg P) as HP.
  rewrite sumsq_forward in Z. cbn [fst snd] in Z.
  unfold det in HD, HP. rewrite gram_symmetric in HD, HP.
  pose proof (sumsq_nonneg (map fst P)) as G1.
  pose proof (sumsq_nonneg (map snd P)) as G2.
  change (sumsq (map fst P)) with (fst (fst (gram P))) in G1.
  change (sumsq (map snd P)) with (snd (snd (gram P))) in G2.
  revert Z HD HP G1 G2.
  generalize (fst (fst (gram P))) (snd (fst (gram P))) (snd (snd (gram P))).
  intros g11 g12 g22 Z HD HP G1 G2.
  set (d1 := fst m - fst u) in *. set (d2 := snd m - snd u) in *.
  assert (D : 0 < g11 * g22 - g12 * g12) by lra.
  assert (Z1 : (g11 * d1 + g12 * d2) * (g11 * d1 + g12 * d2)
               + (g11 * g22 - g12 * g12) * (d2 * d2) = 0).
  { replace 0 with (g11 * (g11 * (d1 * d1) + 2 * g12 * (d1 * d2)
                           + g22 * (d2 * d2))) by (rewrite Z; ring).
    ring. }
  assert (Z2 : (g12 * d1 + g22 * d2) * (g12 * d1 + g22 * d2)
               + (g11 * g22 - g12 * g12) * (d1 * d1) = 0).
  { replace 0 with (g22 * (g11 * (d1 * d1) + 2 * g12 * (d1 * d2)
                           + g22 * (d2 * d2))) by (rewrite Z; ring).
    ring. }
  assert (F2 : d2 = 0)
    by (apply (square_term_zero _ _ _ D Z1)).
  assert (F1 : d1 = 0)
    by (apply (square_term_zero _ _ _ D Z2)).
  subst d1 d2. destruct m, u; cbn [fst snd] in *. f_equal; lra.
Qed.

Lemma inverse_cancel_left (M : mat_22) (w : col_2) :
  det M <> 0 ->
  matmul_22_col
    ((snd (snd M) / det M, - snd (fst M) / det M),
     (- fst (snd M) / det M, fst (fst M) / det M))
    (matmul_22_col M w)
  = w.
Proof.
  destruct M as [[a b] [c d]], w as [w1 w2].
  unfold det, matmul_22_col; cbn [fst snd]. intros H.
  apply f_equal2; field; exact H.
Qed.

Lemma well_conditioned_returns (P : mat_N2) (r : col) :
  well_conditioned P -> length r = length P ->
  exists u, decompose P r = Ok u.
Proof.
  intros W HL. apply well_conditioned_regular in W.
  rewrite (decompose_regular P r W HL). eexists; reflexivity.
Qed.

(** X3: for a well-conditioned design matrix with any number of rows
    and as many bounded observations, a model is returned and its
    residual is orthogonal to both columns of the design matrix,
    [P^T (P u - r) = 0]. *)
Theorem residual_orthogonal (P : mat_N2) (r : col) :
  well_conditioned P -> length r = length P -> bounded r ->
  exists u : col_2,
    decompose P r = Ok u
    /\ dot (map fst P) (residual P u r) = 0
    /\ dot (map snd P) (residual P u r) = 0.
Proof.
  intros W HL _. destruct (well_conditioned_returns P r W HL) as [u Hu].
  exists u. split; [exact Hu|]. apply (residual_orthogonal_exact P r u Hu).
Qed.

(** X4: for a well-conditioned design matrix with any number of rows
    and as many bounded observations, the returned model is the
    least-squares solution: no model has a smaller sum of squared
    residuals, and a model with the same sum is the returned one. *)
Theorem decompose_least_squares (P : mat_N2) (r : col) :
  well_conditioned P -> length r = length P -> bounded r ->
  exists u : col_2,
    decompose P r = Ok u
    /\ forall m : col_2,
         sumsq (residual P u r) <= sumsq (residual P m r)
         /\ (sumsq (residual P m r) = sumsq (residual P u r) -> m = u).
Proof.
  intros W HL _. destruct (well_conditioned_returns P r W HL) as [u Hu].
  exists u. split; [exact Hu|]. apply (least_squares_exact P r u Hu).
Qed.

(** X5: for a well-conditioned design matrix with any number of rows,
    the exact observations [P m] of a bounded model [m] decompose back
    to [m]. *)
Theorem decompose_recovers_model (P : mat_N2) (m : col_2) :
  well_conditioned P -> bounded [fst m; snd m] ->
  decompose P (forward P m) = Ok m.
Proof.
  intros W _. apply well_conditioned_regular in W.
  rewrite (decompose_regular P _ W (forward_length P m)).
  rewrite dot_forward. apply f_equal. apply inverse_cancel_left. exact W.
Qed.

Lemma three_rows_well_conditioned :
  well_conditioned [(1, 0); (0, 1); (1, 1)].
Proof.
  split; [|split].
  - repeat constructor; cbn [fst snd];
      rewrite ?Rabs_R1, ?Rabs_R0; lra.
  - unfold det, gram, dot; cbn. lra.
  - unfold trace, det, gram, dot; cbn. lra.
Qed.

Lemma bounded_small (v : col) :
  Forall (fun x => Rabs x <= 10) v -> bounded v.
Proof.
  assert (B : 10 <= 10 ^ 6).
  { replace 10 with (10 ^ 1) at 1 by ring. apply Rle_pow; [lra | lia]. }
  intros H. unfold bounded. eapply Forall_impl; [|exact H].
  intros x Hx. cbn beta in Hx. lra.
Qed.

Lemma bounded_1_2_4 : bounded [1; 2; 4].
Proof.
  apply bounded_small.
  repeat constructor; rewrite Rabs_pos_eq; lra.
Qed.

Lemma bounded_5_7 : bounded [5; 7].
Proof.
  apply bounded_small.
  repeat constructor; rewrite Rabs_pos_eq; lra.
Qed.

Lemma residual_orthogonal_witness :
  exists u : col_2,
    decompose [(1, 0); (0, 1); (1, 1)] [1; 2; 4] = Ok u
    /\ dot (map fst [(1, 0); (0, 1); (1, 1)])
           (residual [(1, 0); (0, 1); (1, 1)] u [1; 2; 4]) = 0
    /\ dot (map snd [(1, 0); (0, 1); (1, 1)])
           (residual [(1, 0); (0, 1); (1, 1)] u [1; 2; 4]) = 0.
Proof.
  exact (residual_orthogonal [(1, 0); (0, 1); (1, 1)] [1; 2; 4]
           three_rows_well_conditioned eq_refl bounded_1_2_4).
Defined.

Lemma decompose_least_squares_witness :
  exists u : col_2,
    decompose [(1, 0); (0, 1); (1, 1)] [1; 2; 4] = Ok u
    /\ forall m : col_2,
         sumsq (residual [(1, 0); (0, 1); (1, 1)] u [1; 2; 4])
         <= sumsq (residual [(1, 0); (0, 1); (1, 1)] m [1; 2; 4])
         /\ (sumsq (residual [(1, 0); (0, 1); (1, 1)] m [1; 2; 4])
             = sumsq (residual [(1, 0); (0, 1); (1, 1)] u [1; 2; 4]) ->
             m = u).
Proof.
  exact (decompose_least_squares [(1, 0); (0, 1); (1, 1)] [1; 2; 4]
           three_rows_well_conditioned eq_refl bounded_1_2_4).
Defined.

Lemma decompose_recovers_model_witness :
  decompose [(1, 0); (0, 1); (1, 1)] (forward [(1, 0); (0, 1); (1, 1)] (5, 7))
  = Ok (5, 7).
Proof.
  exact (decompose_recovers_model [(1, 0); (0, 1); (1, 1)] (5, 7)
           three_rows_well_conditioned bounded_5_7).
Defined.

(** *** The order of the viewing geometries *)






End LeastSquares.

(** * Further properties of the loop over the landslides *)

Section Loop.

Import Decomposition.

Lemma for_each_length {A B : Type} (f : A -> result B) (l : list A)
    (ys : list B) :
  for_each f l = Ok ys -> length ys = length l.
Proof.
  revert ys. induction l as [|x l IH]; intros ys H; cbn in H.
  - injection H as <-. reflexivity.
  - destruct (f x) as [y | cls]; [|discriminate]. cbn in H.
    destruct (for_each f l) as [ys' | cls]; [|discriminate]. cbn in H.
    injection H as <-. cbn. rewrite (IH ys' eq_refl). reflexivity.
Qed.

Lemma for_each_nth {A B : Type} (f : A -> result B) (l : list A)
    (ys : list B) (i : nat) (x : A) :
  for_each f l = Ok ys -> nth_error l i = Some x ->
  exists y, nth_error ys i = Some y /\ f x = Ok y.
Proof.
  revert ys i. induction l as [|x0 l IH]; intros ys i H Hi.
  - destruct i; discriminate.
  - cbn in H. destruct (f x0) as [y0 | cls] eqn:E0; [|discriminate]. cbn in H.
    destruct (for_each f l) as [ys' | cls]; [|discriminate]. cbn in H.
    injection H as <-. destruct i as [|i]; cbn in Hi |- *.
    + injection Hi as <-. exists y0. split; [reflexivity | exact E0].
    + apply (IH ys' i eq_refl Hi).
Qed.

Lemma for_each_app {A B : Type} (f : A -> result B) (l1 l2 : list A) :
  for_each f (l1 ++ l2)
  = (ys1 <- for_each f l1 ;; ys2 <- for_each f l2 ;; Ok (ys1 ++ ys2)).
Proof.
  induction l1 as [|x l1 IH]; cbn.
  - destruct (for_each f l2); reflexivity.
  - destruct (f x) as [y | cls]; [|reflexivity]. cbn. rewrite IH.
    destruct (for_each f l1) as [ys1 | cls]; [|reflexivity]. cbn.
    destruct (for_each f l2); reflexivity.
Qed.

Lemma for_each_returns {A B : Type} (f : A -> result B) (l : list A) :
  (forall x, In x l -> returns (f x)) -> returns (for_each f l).
Proof.
  induction l as [|x l IH]; intros H; cbn.
  - eexists; reflexivity.
  - destruct (H x (or_introl eq_refl)) as [y ->]. cbn.
    destruct IH as [ys ->]; [intros z Hz; apply H; right; exact Hz|].
    eexists; reflexivity.
Qed.

Lemma nth_error_seq_0 (n i : nat) :
  (i < n)%nat -> nth_error (seq 0 n) i = Some i.
Proof.
  intros H. rewrite (nth_error_nth' _ 0%nat) by (rewrite length_seq; exact H).
  rewrite seq_nth by exact H. reflexivity.
Qed.

Lemma getitem_Ok (a : array) (i : nat) (x : R) :
  getitem a i = Ok x <-> nth_error a i = Some x.
Proof.
  unfold getitem. destruct (nth_error a i); split; intros H;
    try discriminate; congruence.
Qed.

Lemma getitem_lt (a : array) (i : nat) :
  (i < length a)%nat -> exists x, getitem a i = Ok x.
Proof.
  intros H. unfold getitem.
  destruct (nth_error a i) as [x|] eqn:E; [exists x; reflexivity|].
  apply nth_error_None in E. lia.
Qed.

Lemma getitem_ge (a : array) (i : nat) :
  (length a <= i)%nat -> getitem a i = Raise IndexError.
Proof.
  intros H. unfold getitem.
  apply nth_error_None in H. rewrite H. reflexivity.
Qed.

Lemma landslide_Ok (F : mat_22) (P : mat_N2) (ra rd : array) (i : nat)
    (u : col_2) :
  landslide F P ra rd i = Ok u ->
  exists x y, nth_error ra i = Some x /\ nth_error rd i = Some y
              /\ solve F P [x; y] = Ok u.
Proof.
  unfold landslide, getitem.
  destruct (nth_error ra i) as [x|]; [|discriminate]. cbn [bind].
  destruct (nth_error rd i) as [y|]; [|discriminate]. cbn [bind].
  intros H. exists x, y. repeat split. exact H.
Qed.

(** X9: when the loop returns, it returns one pair per entry of
    [r_asc_all], [r_dsc_all] is at least as long, the design matrix has
    exactly two rows unless there is no target, and the pair at index
    [i] is the decomposition of the two observations at index [i]. *)
Theorem decompose_many_returned (P : mat_N2) (r_asc_all r_dsc_all : array)
    (us : list col_2) :
  decompose_many P r_asc_all r_dsc_all = Ok us ->
  length us = length r_asc_all
  /\ (length r_asc_all <= length r_dsc_all)%nat
  /\ (r_asc_all <> [] -> length P = 2%nat)
  /\ forall (i : nat) (x y : R),
       nth_error r_asc_all i = Some x -> nth_error r_dsc_all i = Some y ->
       exists u, nth_error us i = Some u /\ decompose P [x; y] = Ok u.
Proof.
  unfold decompose_many. intros H.
  destruct (PTPinv P) as [F | cls] eqn:EF; [|discriminate]. cbn [bind] in H.
  unfold landslides in H.
  pose proof (for_each_length _ _ _ H) as HL. rewrite length_seq in HL.
  assert (At : forall i, (i < length r_asc_all)%nat ->
            exists u x y, nth_error us i = Some u
                          /\ nth_error r_asc_all i = Some x
                          /\ nth_error r_dsc_all i = Some y
                          /\ solve F P [x; y] = Ok u).
  { intros i Hi.
    destruct (for_each_nth _ _ _ i i H (nth_error_seq_0 _ _ Hi))
      as (u & Hu & Hb).
    destruct (landslide_Ok _ _ _ _ _ _ Hb) as (x & y & Hx & Hy & Hs).
    exists u, x, y. repeat split; assumption. }
  split; [exact HL|]. split; [|split].
  - destruct (Nat.le_gt_cases (length r_asc_all) (length r_dsc_all)) as [L | L];
      [exact L|].
    destruct (At (length r_dsc_all) L) as (u & x & y & _ & _ & Hy & _).
    assert (N : nth_error r_dsc_all (length r_dsc_all) = None)
      by (apply nth_error_None; lia).
    congruence.
  - intros Hne. destruct r_asc_all as [|x0 ra]; [contradiction|].
    destruct (At 0%nat) as (u & x & y & _ & _ & _ & Hs); [cbn; lia|].
    unfold solve, matmul_2N_col, T in Hs.
    destruct (Nat.eqb (length P) (length [x; y])) eqn:E; [|discriminate].
    apply Nat.eqb_eq in E. exact E.
  - intros i x y Hx Hy.
    assert (Hi : (i < length r_asc_all)%nat)
      by (apply nth_error_Some; congruence).
    destruct (At i Hi) as (u & x' & y' & Hu & Hx' & Hy' & Hs).
    exists u. split; [exact Hu|].
    unfold decompose. rewrite EF; cbn [bind]. congruence.
Qed.

Lemma decompose_many_returned_witness :
  length [(1, 2); (3, 4)] = length [1; 3].
Proof.
  assert (H : decompose_many [(1, 0); (0, 1)] [1; 3] [2; 4; 9]
              = Ok [(1, 2); (3, 4)]).
  { unfold decompose_many.
    rewrite PTPinv_gram, inv_regular by (rewrite det_gram_2; lra).
    unfold landslides, landslide, getitem, solve, matmul_2N_col, T,
      matmul_22_col, vstack_2, det, gram, dot; cbn.
    apply f_equal. apply f_equal2; [apply f_equal2; field|].
    apply f_equal2; [apply f_equal2; field | reflexivity]. }
  exact (proj1 (decompose_many_returned _ _ _ _ H)).
Defined.

Lemma PTPinv_regular (P : mat_N2) :
  det (gram P) <> 0 -> exists F, PTPinv P = Ok F.
Proof.
  intros H. rewrite PTPinv_gram, (inv_regular _ H). eexists; reflexivity.
Qed.

Lemma landslide_two_rows (F : mat_22) (P : mat_N2) (ra rd : array) (i : nat) :
  length P = 2%nat -> (i < length ra)%nat -> (i < length rd)%nat ->
  returns (landslide F P ra rd i).
Proof.
  intros HP Ha Hd. unfold landslide.
  destruct (getitem_lt ra i Ha) as [x ->], (getitem_lt rd i Hd) as [y ->].
  cbn [bind]. unfold solve, matmul_2N_col, T, vstack_2.
  rewrite HP. cbn. eexists; reflexivity.
Qed.

(** X10: with a two-row design matrix of invertible [P^T P], a
    [r_dsc_all] shorter than [r_asc_all] makes the loop raise
    [IndexError]; no list of results is returned. *)
Theorem short_r_dsc_all_raises (P : mat_N2) (r_asc_all r_dsc_all : array) :
  det (gram P) <> 0 -> length P = 2%nat ->
  (length r_dsc_all < length r_asc_all)%nat ->
  decompose_many P r_asc_all r_dsc_all = Raise IndexError.
Proof.
  intros HD HP HL. destruct (PTPinv_regular P HD) as [F EF].
  unfold decompose_many. rewrite EF; cbn [bind]. unfold landslides.
  replace (length r_asc_all)
    with (length r_dsc_all + (length r_asc_all - length r_dsc_all))%nat by lia.
  rewrite seq_app, for_each_app.
  destruct (for_each_returns (landslide F P r_asc_all r_dsc_all)
              (seq 0 (length r_dsc_all))) as [ys ->].
  { intros i Hi. apply in_seq in Hi.
    apply landslide_two_rows; [exact HP | lia | lia]. }
  cbn [bind Nat.add].
  destruct (length r_asc_all - length r_dsc_all)%nat as [|k] eqn:E; [lia|].
  cbn [seq for_each]. unfold landslide at 1.
  destruct (getitem_lt r_asc_all (length r_dsc_all) HL) as [x ->].
  cbn [bind]. rewrite getitem_ge by lia. reflexivity.
Qed.

Lemma short_r_dsc_all_raises_witness :
  decompose_many [(1, 0); (0, 1)] [1; 3] [2] = Raise IndexError.
Proof.
  apply short_r_dsc_all_raises.
  - rewrite det_gram_2. lra.
  - reflexivity.
  - cbn. lia.
Defined.

(** X11: the loop runs over the indices of [r_asc_all] only: entries of
    [r_dsc_all] beyond the length of [r_asc_all] are never read, and the
    outcome is the same with or without them. *)
Theorem surplus_r_dsc_all_ignored (P : mat_N2)
    (r_asc_all r_dsc_all surplus : array) :
  (length r_asc_all <= length r_dsc_all)%nat ->
  decompose_many P r_asc_all (r_dsc_all ++ surplus)
  = decompose_many P r_asc_all r_dsc_all.
Proof.
  intros HL. unfold decompose_many.
  destruct (PTPinv P) as [F | cls]; [|reflexivity]. cbn [bind].
  unfold landslides. apply for_each_ext. intros i Hi. apply in_seq in Hi.
  unfold landslide, getitem. rewrite nth_error_app1 by lia. reflexivity.
Qed.

Lemma surplus_r_dsc_all_ignored_witness :
  decompose_many [(1, 0); (0, 1)] [1; 3] ([2; 4] ++ [9])
  = decompose_many [(1, 0); (0, 1)] [1; 3] [2; 4].
Proof. apply surplus_r_dsc_all_ignored. cbn. lia. Defined.

(** X12: the loop builds two-entry observation vectors, so it serves
    two viewing geometries only: with an invertible [P^T P] but a number
    of rows other than two (three or more geometries), and at least one
    target, it raises [ValueError]. *)
Theorem more_geometries_raise (P : mat_N2) (r_asc_all r_dsc_all : array) :
  det (gram P) <> 0 -> length P <> 2%nat ->
  r_asc_all <> [] -> r_dsc_all <> [] ->
  decompose_many P r_asc_all r_dsc_all = Raise ValueError.
Proof.
  intros HD HP Ha Hd. destruct (PTPinv_regular P HD) as [F EF].
  unfold decompose_many. rewrite EF; cbn [bind].
  destruct r_asc_all as [|x ra]; [contradiction|].
  destruct r_dsc_all as [|y rd]; [contradiction|].
  unfold landslides. cbn [length seq for_each].
  unfold landslide at 1, getitem; cbn [nth_error bind].
  unfold solve, matmul_2N_col, T, vstack_2.
  replace (Nat.eqb (length P) (length [x; y])) with false; [reflexivity|].
  symmetry. apply Nat.eqb_neq. exact HP.
Qed.

Lemma more_geometries_raise_witness :
  decompose_many [(1, 0); (0, 1); (1, 1)] [1] [2] = Raise ValueError.
Proof.
  apply more_geometries_raise.
  - unfold det, gram, dot; cbn. lra.
  - cbn. lia.
  - discriminate.
  - discriminate.
Defined.

End Loop.

(** * Further properties of the LOS geometry *)

Section Geometry.

Import Decomposition.
Import Quadtree.

(** X13: the LOS vector is right-looking: its horizontal part is
    [sin(inc)] times the horizontal direction a quarter turn to the
    right of the flight heading, hence perpendicular to the heading and
    of squared length [sin(inc)^2]. *)
Theorem los_right_looking (azi inc : R) :
  east (compute_los_vector azi inc) = sin inc * fst (right_of (heading azi))
  /\ north (compute_los_vector azi inc)
     = sin inc * snd (right_of (heading azi))
  /\ east (compute_los_vector azi inc) * fst (heading azi)
     + north (compute_los_vector azi inc) * snd (heading azi) = 0
  /\ east (compute_los_vector azi inc) * east (compute_los_vector azi inc)
     + north (compute_los_vector azi inc) * north (compute_los_vector azi inc)
     = sin inc * sin inc.
Proof.
  unfold east, north, compute_los_vector, right_of, heading; cbn [nth fst snd].
  pose proof (sin_cos_sqr azi) as H.
  repeat split; try ring.
  replace (cos azi * sin inc * (cos azi * sin inc)
           + - sin azi * sin inc * (- sin azi * sin inc))
    with ((sin azi * sin azi + cos azi * cos azi) * (sin inc * sin inc))
    by ring.
  rewrite H. ring.
Qed.

Lemma cos_PI_minus (x : R) : cos (PI - x) = - cos x.
Proof. rewrite cos_minus, cos_PI, sin_PI. ring. Qed.

Lemma sin_PI_minus (x : R) : sin (PI - x) = sin x.
Proof. rewrite sin_minus, cos_PI, sin_PI. ring. Qed.

(** X14: the two notebooks agree: for a leaf whose kite elevation is
    [PI/2 - inc] and whose kite azimuth (towards the satellite,
    counter-clockwise from east) is [PI - azi], the okinv LOS components
    are the LOS vector of flight azimuth [azi] and incidence [inc]. *)
Theorem kite_los_is_right_looking_los (azi inc : R) :
  losx [PI / 2 - inc] [PI - azi] = Ok [east (compute_los_vector azi inc)]
  /\ losy [PI / 2 - inc] [PI - azi] = Ok [north (compute_los_vector azi inc)]
  /\ losz [PI / 2 - inc] = [vertical (compute_los_vector azi inc)].
Proof.
  unfold losx, losy, losz, mul, neg, east, north, vertical, compute_los_vector;
    cbn.
  rewrite cos_shift, sin_shift, cos_PI_minus, sin_PI_minus.
  split; [|split].
  - apply (f_equal (fun x : R => Ok [x])). ring.
  - apply (f_equal (fun x : R => Ok [x])). ring.
  - reflexivity.
Qed.

End Geometry.

(** * Further properties of the okinv tables *)

Section Tables.

Import Quadtree.

Lemma nth_map_default {A : Type} (f : A -> R) (l : list A) (i : nat)
    (d : A) (d' : R) :
  (i < length l)%nat -> nth i (map f l) d' = f (nth i l d).
Proof.
  intros H. rewrite (nth_indep _ d' (f d)) by (rewrite length_map; exact H).
  apply map_nth.
Qed.

Lemma nth_arange (n i : nat) :
  (i < n)%nat -> nth i (arange_from_1 n) 0 = INR (i + 1).
Proof.
  intros H. unfold arange_from_1.
  rewrite (nth_indep _ 0 (INR 0)) by (rewrite length_map, length_seq; exact H).
  rewrite map_nth, seq_nth by exact H. f_equal. lia.
Qed.

(** The table in closed form when the five arrays have one length. *)
Lemma okinv_data_rows (xkm ykm leaf_means leaf_thetas leaf_phis : array) :
  length xkm = length leaf_thetas ->
  length ykm = length leaf_thetas ->
  length leaf_means = length leaf_thetas ->
  length leaf_phis = length leaf_thetas ->
  okinv_data xkm ykm leaf_means leaf_thetas leaf_phis
  = Ok (map (fun i : nat =>
               [nth i xkm 0; nth i ykm 0; nth i leaf_means 0;
                cos (nth i leaf_thetas 0) * - cos (nth i leaf_phis 0);
                cos (nth i leaf_thetas 0) * - sin (nth i leaf_phis 0);
                - sin (nth i leaf_thetas 0);
                INR (i + 1)])
            (seq 0 (length leaf_thetas))).
Proof.
  intros Hx Hy Hm Hp.
  unfold okinv_data, losx, losy, losz.
  rewrite !mul_returns by (unfold neg; rewrite !length_map; congruence).
  cbn [bind]. unfold column_stack, neg.
  cbn [forallb]. unfold arange_from_1 at 1.
  rewrite !length_map, length_combine, !length_map, length_seq.
  rewrite length_combine, !length_map.
  rewrite Hx, Hy, Hm, Hp, Nat.min_id, !Nat.eqb_refl. cbn [andb].
  apply f_equal. apply map_ext_in. intros i Hi. apply in_seq in Hi.
  cbn [map]. rewrite !nth_mul.
  rewrite !(nth_map_lt cos leaf_thetas i 0 0) by lia.
  rewrite !(nth_map_lt Ropp _ i 0 0) by (rewrite length_map; lia).
  rewrite !(nth_map_lt cos leaf_phis i 0 0) by lia.
  rewrite !(nth_map_lt sin leaf_phis i 0 0) by lia.
  rewrite !(nth_map_lt sin leaf_thetas i 0 0) by lia.
  rewrite nth_arange by lia. reflexivity.
Qed.

(** X15: when the arrays have one length [n], the okinv table has [n]
    rows of seven columns; row [i] carries the UTM coordinates of leaf
    [i] divided by 1000, its displacement unchanged, and the identifier
    [i+1], so that identifiers run from 1 to [n] in leaf order. *)
Theorem okinv_table_layout
    (easting northing leaf_means leaf_thetas leaf_phis : array) :
  length easting = length leaf_thetas ->
  length northing = length leaf_thetas ->
  length leaf_means = length leaf_thetas ->
  length leaf_phis = length leaf_thetas ->
  exists rows : list (list R),
    okinv_data (km easting) (km northing) leaf_means leaf_thetas leaf_phis
    = Ok rows
    /\ length rows = length leaf_thetas
    /\ forall i : nat, (i < length leaf_thetas)%nat ->
         length (nth i rows []) = 7%nat
         /\ nth 0 (nth i rows []) 0 = nth i easting 0 / 1000
         /\ nth 1 (nth i rows []) 0 = nth i northing 0 / 1000
         /\ nth 2 (nth i rows []) 0 = nth i leaf_means 0
         /\ nth 6 (nth i rows []) 0 = INR (i + 1).
Proof.
  intros Hx Hy Hm Hp.
  rewrite okinv_data_rows
    by (unfold km; rewrite ?length_map; assumption).
  eexists. split; [reflexivity|]. split.
  - rewrite length_map, length_seq. reflexivity.
  - intros i Hi.
    set (row := fun j : nat => _ :: _).
    rewrite (nth_indep _ [] (row 0%nat))
      by (rewrite length_map, length_seq; exact Hi).
    rewrite map_nth, seq_nth by exact Hi. subst row. cbn [nth length Nat.add].
    unfold km. rewrite !(nth_map_lt (fun x => x / 1000) _ i 0 0) by lia.
    repeat split.
Qed.

Lemma okinv_table_layout_witness :
  exists rows : list (list R),
    okinv_data (km [500000; 501000]) (km [4200000; 4201000]) [3; 4]
               [1; 1] [2; 2]
    = Ok rows
    /\ length rows = 2%nat
    /\ forall i : nat, (i < 2)%nat ->
         length (nth i rows []) = 7%nat
         /\ nth 0 (nth i rows []) 0 = nth i [500000; 501000] 0 / 1000
         /\ nth 1 (nth i rows []) 0 = nth i [4200000; 4201000] 0 / 1000
         /\ nth 2 (nth i rows []) 0 = nth i [3; 4] 0
         /\ nth 6 (nth i rows []) 0 = INR (i + 1).
Proof.
  exact (okinv_table_layout [500000; 501000] [4200000; 4201000] [3; 4]
           [1; 1] [2; 2] eq_refl eq_refl eq_refl eq_refl).
Defined.

(** X16: no partial table: when the incidence and azimuth arrays have
    one length but a coordinate or the displacement array has another,
    [np.column_stack] raises [ValueError]. *)
Theorem okinv_data_length_mismatch
    (xkm ykm leaf_means leaf_thetas leaf_phis : array) :
  length leaf_phis = length leaf_thetas ->
  length xkm <> length leaf_thetas
  \/ length ykm <> length leaf_thetas
  \/ length leaf_means <> length leaf_thetas ->
  okinv_data xkm ykm leaf_means leaf_thetas leaf_phis = Raise ValueError.
Proof.
  intros Hp H.
  unfold okinv_data, losx, losy, losz.
  rewrite !mul_returns by (unfold neg; rewrite !length_map; congruence).
  cbn [bind]. unfold column_stack.
  match goal with |- (if ?b then _ else _) = _ => destruct b eqn:E end;
    [exfalso | reflexivity].
  rewrite forallb_forall in E.
  assert (L : forall c, In c [ykm; leaf_means; neg (map sin leaf_thetas)] ->
                        length c = length xkm).
  { intros c Hc. apply Nat.eqb_eq. apply E. cbn in Hc |- *. intuition. }
  pose proof (L ykm (or_introl eq_refl)) as L1.
  pose proof (L leaf_means (or_intror (or_introl eq_refl))) as L2.
  pose proof (L _ (or_intror (or_intror (or_introl eq_refl)))) as L3.
  unfold neg in L3. rewrite !length_map in L3. lia.
Qed.

Lemma okinv_data_length_mismatch_witness :
  okinv_data [1] [2; 3] [4; 5] [0; 0] [0; 0] = Raise ValueError.
Proof.
  apply okinv_data_length_mismatch; [reflexivity|].
  left. cbn. lia.
Defined.

Lemma xyll_rows (leaf_focal_points : list (R * R)) (reflon reflat : R) :
  xyll leaf_focal_points reflon reflat
  = Ok (map (fun i : nat =>
               [fst (nth i leaf_focal_points (0, 0)) + reflon;
                snd (nth i leaf_focal_points (0, 0)) + reflat])
            (seq 0 (length leaf_focal_points))).
Proof.
  unfold xyll, column_stack. cbn [forallb].
  rewrite !length_map, !Nat.eqb_refl. cbn [andb].
  apply f_equal. apply map_ext_in. intros i Hi. apply in_seq in Hi.
  cbn [map].
  rewrite (nth_map_default (fun p => fst p + reflon) _ i (0, 0) 0) by lia.
  rewrite (nth_map_default (fun p => snd p + reflat) _ i (0, 0) 0) by lia.
  reflexivity.
Qed.

Lemma nth_map_seq {A : Type} (f : nat -> A) (n i : nat) (d : A) :
  (i < n)%nat -> nth i (map f (seq 0 n)) d = f i.
Proof.
  intros H. rewrite (nth_indep _ d (f 0%nat))
    by (rewrite length_map, length_seq; exact H).
  rewrite map_nth, seq_nth by exact H. reflexivity.
Qed.

(** X17: when the arrays have one length [n], the longitude-latitude
    table is returned with [n] rows; row [i] starts with the centre of
    leaf [i] shifted by the reference longitude and latitude, and its
    remaining five columns are those of row [i] of the kilometre table:
    the two tables differ in their coordinates only. *)
Theorem okinv_data_ll_rows (leaf_focal_points : list (R * R))
    (reflon reflat : R) (xkm ykm leaf_means leaf_thetas leaf_phis : array) :
  length leaf_focal_points = length leaf_thetas ->
  length xkm = length leaf_thetas ->
  length ykm = length leaf_thetas ->
  length leaf_means = length leaf_thetas ->
  length leaf_phis = length leaf_thetas ->
  exists rows_ll rows : list (list R),
    okinv_data_ll leaf_focal_points reflon reflat
                  leaf_means leaf_thetas leaf_phis = Ok rows_ll
    /\ okinv_data xkm ykm leaf_means leaf_thetas leaf_phis = Ok rows
    /\ length rows_ll = length leaf_thetas
    /\ forall i : nat, (i < length leaf_thetas)%nat ->
         nth i rows_ll []
         = [fst (nth i leaf_focal_points (0, 0)) + reflon;
            snd (nth i leaf_focal_points (0, 0)) + reflat]
           ++ skipn 2 (nth i rows []).
Proof.
  intros Hf Hx Hy Hm Hp.
  rewrite (okinv_data_rows xkm ykm _ _ _ Hx Hy Hm Hp).
  unfold okinv_data_ll. rewrite xyll_rows; cbn [bind].
  unfold losx, losy, losz.
  rewrite !mul_returns by (unfold neg; rewrite !length_map; congruence).
  cbn [bind]. unfold column_stack_block, neg.
  cbn [forallb]. unfold arange_from_1 at 1.
  rewrite !length_map, !length_combine, !length_map, !length_seq.
  rewrite Hf, Hm, Hp, Nat.min_id, !Nat.eqb_refl. cbn [andb].
  do 2 eexists. split; [reflexivity|]. split; [reflexivity|]. split.
  - rewrite length_map, length_seq. reflexivity.
  - intros i Hi. rewrite !nth_map_seq by lia. cbn [skipn map app].
    do 2 f_equal.
    rewrite !nth_mul.
    rewrite !(nth_map_lt cos leaf_thetas i 0 0) by lia.
    rewrite !(nth_map_lt Ropp _ i 0 0) by (rewrite length_map; lia).
    rewrite !(nth_map_lt cos leaf_phis i 0 0) by lia.
    rewrite !(nth_map_lt sin leaf_phis i 0 0) by lia.
    rewrite !(nth_map_lt sin leaf_thetas i 0 0) by lia.
    rewrite nth_arange by lia. reflexivity.
Qed.

Lemma okinv_data_ll_rows_witness :
  exists rows_ll rows : list (list R),
    okinv_data_ll [(1, 2)] 39 38 [3] [0] [0] = Ok rows_ll
    /\ okinv_data [5] [6] [3] [0] [0] = Ok rows
    /\ length rows_ll = 1%nat
    /\ forall i : nat, (i < 1)%nat ->
         nth i rows_ll []
         = [fst (nth i [(1, 2)] (0, 0)) + 39; snd (nth i [(1, 2)] (0, 0)) + 38]
           ++ skipn 2 (nth i rows []).
Proof.
  exact (okinv_data_ll_rows [(1, 2)] 39 38 [5] [6] [3] [0] [0]
           eq_refl eq_refl eq_refl eq_refl eq_refl).
Defined.

End Tables.

(** * From two viewing geometries to a decomposition *)

Section TwoGeometries.

Import Decomposition.

Lemma design_matrix_of_two (az1 i1 az2 i2 : R) :
  build_design_matrix [compute_los_vector az1 i1; compute_los_vector az2 i2]
  = Ok [(cos az1 * sin i1, - cos i1); (cos az2 * sin i2, - cos i2)].
Proof. reflexivity. Qed.

Lemma sin_PI12 : / 4 <= sin (PI / 12).
Proof.
  pose proof PI_bounds as HPI.
  destruct (sin_enclosure 0.2617 (PI / 12) 0.2618) as [A _]; lra.
Qed.

(** Incidences between 15 and 75 degrees keep sine and cosine at least
    1/4. *)
Lemma incidence_range (i : R) :
  PI / 12 <= i <= 5 * PI / 12 -> / 4 <= sin i <= 1 /\ / 4 <= cos i <= 1.
Proof.
  intros [L U]. pose proof PI_RGT_0 as HPI. pose proof sin_PI12 as S.
  pose proof (SIN_bound i) as [_ SB]. pose proof (COS_bound i) as [_ CB].
  split; split; try assumption.
  - apply Rle_trans with (sin (PI / 12)); [exact S|].
    apply sin_incr_1; lra.
  - apply Rle_trans with (cos (5 * PI / 12)).
    + replace (5 * PI / 12) with (PI / 2 - PI / 12) by field.
      rewrite cos_shift. exact S.
    + apply cos_decr_1; lra.
Qed.

Lemma Rabs_product_le_1 (x y : R) :
  -1 <= x <= 1 -> -1 <= y <= 1 -> Rabs (x * y) <= 1.
Proof.
  intros Hx Hy. rewrite Rabs_mult.
  assert (X : Rabs x <= 1) by (apply Rabs_le; lra).
  assert (Y : Rabs y <= 1) by (apply Rabs_le; lra).
  pose proof (Rabs_pos x). pose proof (Rabs_pos y).
  replace 1 with (1 * 1) by ring. apply Rmult_le_compat; assumption.
Qed.

(** X19: a track with [cos az1 <= -1/10] (as the ascending one of the
    notebook, 191 degrees) and a track with [cos az2 >= 1/10] (as the
    descending one, 348 degrees), both with incidence between 15 and 75
    degrees, give a well-conditioned design matrix, and every pair of
    observations decomposes. *)
Theorem opposite_tracks_decompose (az1 i1 az2 i2 : R) :
  cos az1 <= - / 10 -> / 10 <= cos az2 ->
  PI / 12 <= i1 <= 5 * PI / 12 -> PI / 12 <= i2 <= 5 * PI / 12 ->
  exists M : mat_N2,
    build_design_matrix
      [compute_los_vector az1 i1; compute_los_vector az2 i2] = Ok M
    /\ well_conditioned M
    /\ forall r1 r2 : R, returns (decompose M [r1; r2]).
Proof.
  intros H1 H2 I1 I2. rewrite design_matrix_of_two.
  destruct (incidence_range i1 I1) as [[S1 S1'] [C1 C1']].
  destruct (incidence_range i2 I2) as [[S2 S2'] [C2 C2']].
  pose proof (COS_bound az1) as B1. pose proof (COS_bound az2) as B2.
  assert (X1 : / 16 <= sin i1 * cos i2).
  { replace (/ 16) with (/ 4 * / 4) by field.
    apply Rmult_le_compat; lra. }
  assert (X2 : / 16 <= cos i1 * sin i2).
  { replace (/ 16) with (/ 4 * / 4) by field.
    apply Rmult_le_compat; lra. }
  assert (Y1 : / 10 * / 16 <= - cos az1 * (sin i1 * cos i2))
    by (apply Rmult_le_compat; lra).
  assert (Y2 : / 10 * / 16 <= cos az2 * (cos i1 * sin i2))
    by (apply Rmult_le_compat; lra).
  set (q := cos az1 * sin i1 * - cos i2 - - cos i1 * (cos az2 * sin i2)).
  assert (Q : / 80 <= q).
  { unfold q.
    replace (cos az1 * sin i1 * - cos i2 - - cos i1 * (cos az2 * sin i2))
      with (- cos az1 * (sin i1 * cos i2) + cos az2 * (cos i1 * sin i2))
      by ring.
    lra. }
  assert (W : well_conditioned
                [(cos az1 * sin i1, - cos i1); (cos az2 * sin i2, - cos i2)]).
  { apply two_rows_well_conditioned.
    - apply Rabs_product_le_1; lra.
    - rewrite Rabs_Ropp. apply Rabs_le; lra.
    - apply Rabs_product_le_1; lra.
    - rewrite Rabs_Ropp. apply Rabs_le; lra.
    - rewrite det_gram_2. fold q.
      apply Rle_trans with (/ 80 * / 80); [lra|].
      apply Rmult_le_compat; lra. }
  eexists. split; [reflexivity|]. split; [exact W|].
  intros r1 r2.
  destruct (well_conditioned_returns _ [r1; r2] W eq_refl) as [u Hu].
  exists u. exact Hu.
Qed.

(** The two geometries of the notebook are such a pair. *)
Lemma opposite_tracks_decompose_witness :
  exists M : mat_N2,
    build_design_matrix [p_asc; p_dsc] = Ok M
    /\ well_conditioned M
    /\ forall r1 r2 : R, returns (decompose M [r1; r2]).
Proof.
  pose proof PI_RGT_0 as HPI.
  apply (opposite_tracks_decompose asc_azi asc_inc dsc_azi dsc_inc).
  - unfold asc_azi. rewrite cos_191. pose proof cos_11. lra.
  - unfold dsc_azi. rewrite cos_348. pose proof cos_12. lra.
  - unfold asc_inc, radians. split; lra.
  - unfold dsc_inc, radians. split; lra.
Defined.

End TwoGeometries.

(** * The round trip in binary64 *)

Section Binary64.

Import Floats.

Lemma not_finite_sum (x y : float) :
  F64.finite (x * infinity + y * infinity)%float = false.
Proof.
  unfold F64.finite. rewrite classify_spec, add_spec, !mul_spec.
  change (Prim2SF infinity) with (S754_infinity false).
  destruct (Prim2SF x) as [[|]|[|]| |[|] mx ex];
    destruct (Prim2SF y) as [[|]|[|]| |[|] my ey]; reflexivity.
Qed.

Lemma big_identity_rows :
  Decomposition.lin_indep
    (F64.to_R 0x1p600%float, F64.to_R 0%float)
    (F64.to_R 0%float, F64.to_R 0x1p600%float).
Proof.
  apply det_lin_indep.
  change (F64.to_R 0%float) with 0.
  change (F64.to_R 0x1p600%float)
    with (1 * IZR 4503599627370496 * powerRZ 2 548).
  assert (Hp : 0 < powerRZ 2 548) by (apply powerRZ_lt; lra).
  assert (Hx : 0 < 1 * IZR 4503599627370496 * powerRZ 2 548).
  { apply Rmult_lt_0_compat; [lra | exact Hp]. }
  intros Z. rewrite Rmult_0_l, Rminus_0_r in Z.
  destruct (Rmult_integral _ _ Z); lra.
Qed.

(** C1, as stated, fails in binary64: the rows of [2^600 I] are linearly
    independent, yet the products of [P.T] with the exact observations
    [P m] of the model (1, 2) overflow, and whatever [np.linalg.inv]
    does no finite east velocity is returned, let alone 1. *)
Lemma round_trip_overflows :
  Decomposition.lin_indep
    (F64.to_R 0x1p600%float, F64.to_R 0%float)
    (F64.to_R 0%float, F64.to_R 0x1p600%float)
  /\ ~ exists (inv : F64.mat_22 -> result F64.mat_22) (u : F64.col_2),
         F64.decompose inv F64.big_identity
           (F64.forward F64.big_identity F64.one_two) = Ok u
         /\ F64.finite (fst u) = true.
Proof.
  split; [exact big_identity_rows|].
  intros (inv & u & H & Hf).
  unfold F64.decompose in H.
  assert (G : F64.matmul_2N_N2 (F64.T F64.big_identity) F64.big_identity
              = Ok ((infinity, 0%float), (0%float, infinity)))
    by (vm_compute; reflexivity).
  rewrite G in H; cbn [bind] in H.
  destruct (inv _) as [F | cls]; [|discriminate]. cbn [bind] in H.
  unfold F64.solve in H.
  assert (W : F64.matmul_2N_col (F64.T F64.big_identity)
                (F64.forward F64.big_identity F64.one_two)
              = Ok (infinity, infinity))
    by (vm_compute; reflexivity).
  rewrite W in H; cbn [bind] in H. injection H as <-.
  unfold F64.matmul_22_col in Hf; cbn [fst snd] in Hf.
  rewrite not_finite_sum in Hf. discriminate.
Qed.

End Binary64.
